(** * caemble: the GitHub CAE harvester ([github_harvest/github_cae.py])

    A shallow embedding of the query cache, the crawl loop, the repository
    merger and the candidate miner, followed by the properties of the
    specification that concern them.

    Conventions of the embedding.
    - A Python [str] is a [string]; the model covers ASCII text, on which
      [str.lower], [str.strip] and the comparison used by [sorted] are the
      functions below.
    - A Python [float] (keyword weights, candidate scores, the value of
      [rng.random()]) is an exact rational [Q]: rounding is not modelled.
    - A Python [dict] used as a map is a [gmap], a [set] is a [gset].
    - A TEXT column that holds JSON is an [option]: [None] stands for NULL,
      the empty text and text that does not parse, which [_load_json]
      replaces by its default; [Some v] is the text [json.dumps] wrote for [v].
    - The SQLite tables are fields of the record [Db]; a table with a
      natural key is a [gmap] on that key, the others are lists in insertion
      order.
    - [utcnow_iso()] is an argument [now] of the operation that reads the
      clock; inside [run_harvest] the clock is a function of the number of
      readings made so far. *)

From Stdlib Require Import ZArith QArith Lqa Ascii String.
From stdpp Require Import gmap strings list sorting pretty.

Local Open Scope Z_scope.

(* ===================================================================== *)
(** * Python string primitives                                            *)
(* ===================================================================== *)

(** [str.isspace] on one ASCII character: TAB..CR, FS..US and the blank. *)
Definition is_space (c : ascii) : bool :=
  let n := N_of_ascii c in
  ((9 <=? n) && (n <=? 13))%N || ((28 <=? n) && (n <=? 32))%N.

Definition lower_ascii (c : ascii) : ascii :=
  let n := N_of_ascii c in
  if ((65 <=? n) && (n <=? 90))%N then ascii_of_N (n + 32) else c.

(** [s.lower()] *)
Fixpoint lower (s : string) : string :=
  match s with
  | EmptyString => EmptyString
  | String c s' => String (lower_ascii c) (lower s')
  end.

Fixpoint lstrip (s : string) : string :=
  match s with
  | EmptyString => EmptyString
  | String c s' => if is_space c then lstrip s' else s
  end.

Fixpoint rstrip (s : string) : string :=
  match s with
  | EmptyString => EmptyString
  | String c s' =>
      match rstrip s' with
      | EmptyString => if is_space c then EmptyString else String c EmptyString
      | r => String c r
      end
  end.

(** [s.strip()] *)
Definition strip (s : string) : string := rstrip (lstrip s).

(** [def normalize_term(term): return term.strip().lower()] *)
Definition normalize_term (term : string) : string := lower (strip term).

Fixpoint is_prefix (s t : string) : bool :=
  match s, t with
  | EmptyString, _ => true
  | String a s', String b t' => bool_decide (a = b) && is_prefix s' t'
  | String _ _, EmptyString => false
  end.

(** [s in t] on two strings: [s] occurs in [t] as a contiguous block. *)
Fixpoint is_infix (s t : string) : bool :=
  is_prefix s t ||
  match t with
  | EmptyString => false
  | String _ t' => is_infix s t'
  end.

(** Truth value of a string: [bool(s)]. *)
Definition truthy (s : string) : bool := negb (bool_decide (s = "")).

(** [sorted(xs)] for a set of strings. *)
Definition sorted (xs : gset string) : list string :=
  merge_sort String.le (elements xs).

(** [" ".join(parts)] *)
Fixpoint join_space (parts : list string) : string :=
  match parts with
  | [] => ""
  | [p] => p
  | p :: rest => p +:+ " " +:+ join_space rest
  end.

(** [s[:n]] *)
Fixpoint take_prefix (n : nat) (s : string) : string :=
  match n, s with
  | S n', String c s' => String c (take_prefix n' s')
  | _, _ => EmptyString
  end.

(* ===================================================================== *)
(** * Exceptions and the random generator                                 *)
(* ===================================================================== *)

Inductive Exn : Type :=
  | RuntimeError (msg : string)
  | ValueError (msg : string)
  | IndexError (msg : string)
  | TransportError (msg : string)   (* raised by [requests] or by [resp.json()] *).

Inductive result (A : Type) : Type :=
  | Ok (a : A)
  | Raise (e : Exn).
Arguments Ok {A} a.
Arguments Raise {A} e.

#[global] Instance result_ret : MRet result := fun A a => Ok a.

#[global] Instance result_bind : MBind result := fun A B k r =>
  match r with
  | Ok a => k a
  | Raise e => Raise e
  end.

(** [repr(e)] *)
Definition repr_exn (e : Exn) : string :=
  match e with
  | RuntimeError m => "RuntimeError('" +:+ m +:+ "')"
  | ValueError m => "ValueError('" +:+ m +:+ "')"
  | IndexError m => "IndexError('" +:+ m +:+ "')"
  | TransportError m => m
  end.

(** [random.Random(seed)]: the values the generator will hand out, and how
    many it has handed out so far. [rng_floats] feeds [rng.random()] and
    [rng_ints] feeds the index drawn by [rng.choice]. *)
Record Rng : Type := mkRng {
  rng_floats : nat -> Q;
  rng_ints : nat -> nat;
  rng_pos : nat
}.

Definition rng_advance (g : Rng) : Rng :=
  {| rng_floats := rng_floats g; rng_ints := rng_ints g; rng_pos := S (rng_pos g) |}.

(** [rng.random()] *)
Definition rng_random (g : Rng) : Q * Rng :=
  (rng_floats g (rng_pos g), rng_advance g).

(** [rng.choice(seq)]: [seq[i]] for a drawn index [i < len(seq)];
    [IndexError] on an empty sequence. *)
Definition rng_choice {A} (g : Rng) (seq : list A) : result (A * Rng) :=
  match seq !! (rng_ints g (rng_pos g) mod length seq)%nat with
  | Some x => Ok (x, rng_advance g)
  | None => Raise (IndexError "Cannot choose from an empty sequence")
  end.

(** [sum(w for w in ws)] *)
Definition sum_weights (ws : list Q) : Q := foldl Qplus (0%Q) ws.

(** [def weighted_choice(items, rng)] *)
Fixpoint weighted_choice_scan (items : list (string * Q)) (upto r : Q) : option string :=
  match items with
  | [] => None
  | (t, w) :: rest =>
      let upto := (upto + w)%Q in
      if Qle_bool r upto then Some t else weighted_choice_scan rest upto r
  end.

Definition weighted_choice (items : list (string * Q)) (rng : Rng) : result (string * Rng) :=
  let total := sum_weights (snd <$> items) in
  if Qle_bool total 0 then rng_choice rng (fst <$> items)
  else
    let '(u, rng) := rng_random rng in
    let r := (u * total)%Q in
    match weighted_choice_scan items 0 r with
    | Some t => Ok (t, rng)
    | None =>
        match last items with
        | Some (t, _) => Ok (t, rng)
        | None => Raise (IndexError "list index out of range")
        end
    end.

(* ===================================================================== *)
(** * The persisted state                                                 *)
(* ===================================================================== *)

(** A row of [keywords]. *)
Record KeywordRec : Type := mkKeywordRec {
  kw_id : Z;
  kw_category : string;
  kw_term : string;
  kw_weight : Q;
  kw_status : string;       (* 'active' / 'paused' *)
  kw_source : string;       (* 'manual' / 'auto' *)
  kw_created_at : string;
  kw_updated_at : string
}.

(** [@dataclass class KeywordRow] *)
Record KeywordRow : Type := mkKeywordRow {
  id : Z;
  category : string;
  term : string;
  weight : Q
}.

(** One entry of [sources_json]. *)
Record Source : Type := mkSource {
  src_repo_full_name : string;
  src_field : string;
  src_evidence : string
}.

(** A row of [keyword_candidates], keyed by [term] (UNIQUE). *)
Record CandidateRow : Type := mkCandidateRow {
  suggested_category : option string;
  score : Q;
  occurrences : Z;
  cand_first_seen_at : string;
  cand_last_seen_at : string;
  sources_json : option (list Source);
  cand_status : string      (* 'pending' / 'rejected' / 'promoted' *)
}.

(** One entry of [recipe["keywords"]]. *)
Record RecipeKeyword : Type := mkRecipeKeyword {
  rk_id : Z;
  rk_category : string;
  rk_term : string
}.

(** The [recipe] dict: ["type"], ["keywords"] and, for DL, ["bait"]. *)
Record Recipe : Type := mkRecipe {
  recipe_type : string;
  recipe_keywords : list RecipeKeyword;
  recipe_bait : option string
}.

(** A row of [queries]. *)
Record QueryRow : Type := mkQueryRow {
  q_id : Z;
  q_query : string;
  recipe_json : Recipe;
  executed_at : option string;
  last_status : option Z;
  last_total_count : option Z;
  last_error : option string
}.

(** A repository record as the search endpoint returns it (the fields the
    harvester reads). A missing key and a JSON null are both [None]. *)
Record RepoItem : Type := mkRepoItem {
  item_full_name : option string;
  item_html_url : option string;
  item_url : option string;
  item_description : option string;
  item_topics : option (list string)
}.

(** A row of [repos], keyed by [full_name] (PRIMARY KEY). *)
Record RepoRow : Type := mkRepoRow {
  repo_html_url : option string;
  repo_api_url : option string;
  repo_description : option string;
  first_seen_at : option string;
  last_seen_at : option string;
  repo_json : option RepoItem;
  topics_json : option (list string);
  merged_tags_json : option (gmap string (list string))
}.

(** A row of [repo_hits]; the list position stands for the row id. *)
Record RepoHit : Type := mkRepoHit {
  hit_query_id : Z;
  hit_repo_full_name : string;
  hit_seen_at : string;
  hit_tags_json : gmap string string
}.

Record Db : Type := mkDb {
  keywords : list KeywordRec;
  keyword_candidates : gmap string CandidateRow;
  queries : list QueryRow;
  repos : gmap string RepoRow;
  repo_hits : list RepoHit
}.

Definition set_keyword_candidates (db : Db) (c : gmap string CandidateRow) : Db :=
  {| keywords := keywords db; keyword_candidates := c; queries := queries db;
     repos := repos db; repo_hits := repo_hits db |}.

Definition set_queries (db : Db) (qs : list QueryRow) : Db :=
  {| keywords := keywords db; keyword_candidates := keyword_candidates db;
     queries := qs; repos := repos db; repo_hits := repo_hits db |}.

Definition set_repos_and_hits (db : Db) (rs : gmap string RepoRow) (hs : list RepoHit) : Db :=
  {| keywords := keywords db; keyword_candidates := keyword_candidates db;
     queries := queries db; repos := rs; repo_hits := hs |}.

(** [def _load_json(s, default)] *)
Definition _load_json {A} (s : option A) (default : A) : A :=
  match s with
  | Some v => v
  | None => default
  end.

(* ===================================================================== *)
(** * Keyword operations and query generation                             *)
(* ===================================================================== *)

(** [def db_get_active_keywords(conn, category)] *)
Definition db_get_active_keywords (db : Db) (cat : string) : list KeywordRow :=
  (fun r => mkKeywordRow (kw_id r) (kw_category r) (kw_term r) (kw_weight r)) <$>
  filter (fun r => kw_status r = "active" ∧ kw_category r = cat) (keywords db).

(** The [for row in rows] scan of [pick]: the first row at which the running
    sum [upto] reaches [rnum]. *)
Fixpoint pick_scan (rows : list KeywordRow) (upto rnum : Q) : option KeywordRow :=
  match rows with
  | [] => None
  | row :: rest =>
      let upto := (upto + weight row)%Q in
      if Qle_bool rnum upto then Some row else pick_scan rest upto rnum
  end.

(** [def pick(rows)], the helper nested in [make_random_query]. *)
Definition pick (rows : list KeywordRow) (rng : Rng) : result (KeywordRow * Rng) :=
  match rows with
  | [] => Raise (RuntimeError "Cannot pick from empty keyword rows.")
  | _ =>
      let total := sum_weights (weight <$> rows) in
      if Qle_bool total 0 then rng_choice rng rows
      else
        let '(u, rng) := rng_random rng in
        let rnum := (u * total)%Q in
        match pick_scan rows 0 rnum with
        | Some row => Ok (row, rng)
        | None =>
            match last rows with
            | Some row => Ok (row, rng)
            | None => Raise (IndexError "list index out of range")
            end
        end
  end.

Definition recipe_entry (r : KeywordRow) : RecipeKeyword :=
  mkRecipeKeyword (id r) (category r) (term r).

Definition lang_baits : list string :=
  ["c++"; "fortran"; "python"; "julia"; "rust"; "cuda"].
Definition lic_baits : list string :=
  ["license"; "gpl"; "lgpl"; "bsd"; "mit"; "apache-2.0"; "mpl-2.0"; "epl-2.0"].

Definition recipe_weights : list (string * Q) :=
  [("DMI", 45 # 100); ("DI", 25 # 100); ("MI", 15 # 100); ("DHI", 10 # 100);
   ("DL", 5 # 100)]%Q.

(** [def make_random_query(conn, rng)]: the query string, its [hit_tags]
    and the recipe. *)
Definition make_random_query (db : Db) (rng : Rng)
  : result (string * gmap string string * Recipe * Rng) :=
  let domains := db_get_active_keywords db "domain" in
  let methods := db_get_active_keywords db "method" in
  let intents := db_get_active_keywords db "intent" in
  let hpcs := db_get_active_keywords db "hpc" in
  match domains, methods, intents with
  | [], _, _ | _, [], _ | _, _, [] =>
      Raise (RuntimeError "Not enough active keywords. Run init + seed first.")
  | _, _, _ =>
      '(rtype, rng) ← weighted_choice recipe_weights rng;
      '(dom, rng) ← pick domains rng;
      '(intent, rng) ← pick intents rng;
      let hit_tags : gmap string string :=
        <["intent" := term intent]> (<["domain" := term dom]> ∅) in
      '(method, rng) ← pick methods rng;
      if bool_decide (rtype = "DMI") then
        Ok (term dom +:+ " " +:+ term method +:+ " " +:+ term intent,
            <["method" := term method]> hit_tags,
            mkRecipe rtype [recipe_entry dom; recipe_entry method; recipe_entry intent] None,
            rng)
      else if bool_decide (rtype = "DI") then
        Ok (term dom +:+ " " +:+ term intent, hit_tags,
            mkRecipe rtype [recipe_entry dom; recipe_entry intent] None, rng)
      else if bool_decide (rtype = "MI") then
        Ok (term method +:+ " " +:+ term intent,
            <["intent" := term intent]> (<["method" := term method]> ∅),
            mkRecipe rtype [recipe_entry method; recipe_entry intent] None, rng)
      else if bool_decide (rtype = "DHI") then
        match hpcs with
        | [] =>
            (* the local [recipe_type] becomes "DI"; the recipe dict keeps
               the type it was created with and an empty keyword list *)
            Ok (term dom +:+ " " +:+ term intent, hit_tags, mkRecipe rtype [] None, rng)
        | _ =>
            '(hpc, rng) ← pick hpcs rng;
            Ok (term dom +:+ " " +:+ term intent +:+ " " +:+ term hpc,
                <["hpc" := term hpc]> hit_tags,
                mkRecipe rtype [recipe_entry dom; recipe_entry intent; recipe_entry hpc] None,
                rng)
        end
      else
        '(bait, rng) ← rng_choice rng (lang_baits ++ lic_baits);
        Ok (term dom +:+ " " +:+ term intent +:+ " " +:+ bait,
            <["bait" := bait]> hit_tags,
            mkRecipe rtype [recipe_entry dom; recipe_entry intent] (Some bait), rng)
  end.

(* ===================================================================== *)
(** * The query cache                                                     *)
(* ===================================================================== *)

(** The id AUTOINCREMENT gives the next inserted row (no row is ever
    deleted): one more than the largest id in the table. *)
Definition next_query_id (qs : list QueryRow) : Z :=
  1 + foldr Z.max 0 (q_id <$> qs).

(** [SELECT ... FROM queries WHERE query=?] then [fetchone()] *)
Definition select_query_by_text (db : Db) (query : string) : option QueryRow :=
  find (fun r => bool_decide (q_query r = query)) (queries db).

(** [SELECT ... FROM queries WHERE id=?] then [fetchone()] *)
Definition select_query_by_id (db : Db) (query_id : Z) : option QueryRow :=
  find (fun r => bool_decide (q_id r = query_id)) (queries db).

(** [def db_insert_query_if_new(conn, query, recipe)]: INSERT OR IGNORE on
    the UNIQUE column [query], then the id of the row holding [query]. *)
Definition db_insert_query_if_new (db : Db) (query : string) (recipe : Recipe)
  : result (Db * Z) :=
  let db' :=
    match select_query_by_text db query with
    | Some _ => db
    | None =>
        set_queries db
          (queries db ++
           [mkQueryRow (next_query_id (queries db)) query recipe None None None None])
    end in
  match select_query_by_text db' query with
  | Some row => Ok (db', q_id row)
  | None => Raise (RuntimeError "Failed to upsert query row.")
  end.

(** [def db_query_is_executed(conn, query_id)]: [bool(r and r[0])] *)
Definition db_query_is_executed (db : Db) (query_id : Z) : bool :=
  match select_query_by_id db query_id with
  | Some r =>
      match executed_at r with
      | Some ts => truthy ts
      | None => false
      end
  | None => false
  end.

(** [def db_mark_query_executed(conn, query_id, status, total_count, error)];
    [now] is the value of [utcnow_iso()]. *)
Definition db_mark_query_executed (db : Db) (now : string) (query_id : Z) (status : Z)
    (total_count : option Z) (error : option string) : Db :=
  set_queries db
    ((fun r =>
        if bool_decide (q_id r = query_id)
        then mkQueryRow (q_id r) (q_query r) (recipe_json r)
                        (Some now) (Some status) total_count error
        else r) <$> queries db).

(** [v is not None and v < 0] *)
Definition given_and_negative (v : option Z) : bool :=
  match v with
  | Some n => bool_decide (n < 0)
  | None => false
  end.

(** [def _build_numeric_qualifier(name, min_value, max_value)] *)
Definition _build_numeric_qualifier (name : string) (min_value max_value : option Z)
  : result (option string) :=
  match min_value, max_value with
  | None, None => Ok None
  | _, _ =>
      if given_and_negative min_value then
        Raise (ValueError (name +:+ " minimum must be >= 0"))
      else if given_and_negative max_value then
        Raise (ValueError (name +:+ " maximum must be >= 0"))
      else
        match min_value, max_value with
        | Some mn, Some mx =>
            if bool_decide (mn > mx) then
              Raise (ValueError (name +:+ " minimum cannot be greater than maximum"))
            else Ok (Some (name +:+ ":" +:+ pretty mn +:+ ".." +:+ pretty mx))
        | Some mn, None => Ok (Some (name +:+ ":>=" +:+ pretty mn))
        | _, Some mx => Ok (Some (name +:+ ":<=" +:+ pretty mx))
        | None, None => Ok None
        end
  end.

(** [def apply_repo_filters_to_query(base_query, ...)] *)
Definition apply_repo_filters_to_query (base_query : string)
    (min_stars max_stars min_forks max_forks
     min_followers max_followers min_topics max_topics : option Z) : result string :=
  q1 ← _build_numeric_qualifier "stars" min_stars max_stars;
  q2 ← _build_numeric_qualifier "forks" min_forks max_forks;
  q3 ← _build_numeric_qualifier "followers" min_followers max_followers;
  q4 ← _build_numeric_qualifier "topics" min_topics max_topics;
  let qualifiers := filter (fun q => truthy q = true) (omap (fun q => q) [q1; q2; q3; q4]) in
  match qualifiers with
  | [] => Ok base_query
  | _ => Ok (base_query +:+ " " +:+ join_space qualifiers)
  end.

(* ===================================================================== *)
(** * Repository storage and tag merge                                    *)
(* ===================================================================== *)

(** [def merge_repo_tags(existing, hit_tags)] *)
Definition merge_repo_tags (existing : gmap string (list string))
    (hit_tags : gmap string string) : gmap string (list string) :=
  let merged : gmap string (gset string) := list_to_set <$> existing in
  let merged :=
    map_fold (fun k v (m : gmap string (gset string)) =>
                <[k := default ∅ (m !! k) ∪ {[v]}]> m)
             merged hit_tags in
  sorted <$> merged.

(** The normalised incoming topic set, as a sorted list:
    [sorted({normalize_term(str(t)) for t in incoming if str(t).strip()})]. *)
Definition normalize_topics (incoming : list string) : list string :=
  sorted (list_to_set
            (normalize_term <$> filter (fun t => truthy (strip t) = true) incoming)).

(** [def db_upsert_repo_and_hit(conn, query_id, repo_item, hit_tags)];
    [now] is the value of [utcnow_iso()]. *)
Definition db_upsert_repo_and_hit (db : Db) (now : string) (query_id : Z)
    (repo_item : RepoItem) (hit_tags : gmap string string) : Db :=
  match item_full_name repo_item with
  | None => db
  | Some full_name =>
      if negb (truthy full_name) then db
      else
        let incoming_topics := normalize_topics (default [] (item_topics repo_item)) in
        let row' :=
          match repos db !! full_name with
          | Some row =>
              let existing_tags := _load_json (merged_tags_json row) ∅ in
              let existing_topics := _load_json (topics_json row) [] in
              let merged_tags := merge_repo_tags existing_tags hit_tags in
              let merged_topics :=
                sorted (list_to_set existing_topics ∪ list_to_set incoming_topics) in
              mkRepoRow (item_html_url repo_item) (item_url repo_item)
                        (item_description repo_item)
                        (first_seen_at row) (Some now) (Some repo_item)
                        (Some merged_topics) (Some merged_tags)
          | None =>
              let merged_tags := merge_repo_tags ∅ hit_tags in
              mkRepoRow (item_html_url repo_item) (item_url repo_item)
                        (item_description repo_item)
                        (Some now) (Some now) (Some repo_item)
                        (Some incoming_topics) (Some merged_tags)
          end in
        set_repos_and_hits db (<[full_name := row']> (repos db))
          (repo_hits db ++ [mkRepoHit query_id full_name now hit_tags])
  end.

(** What a repository row holds, read the way the merger reads it. *)
Definition stored_topics (db : Db) (full_name : string) : gset string :=
  match repos db !! full_name with
  | Some row => list_to_set (_load_json (topics_json row) [])
  | None => ∅
  end.

Definition stored_tags (db : Db) (full_name cat : string) : gset string :=
  match repos db !! full_name with
  | Some row => list_to_set (default [] (_load_json (merged_tags_json row) ∅ !! cat))
  | None => ∅
  end.

(** One call of [db_upsert_repo_and_hit] with its arguments. *)
Record UpsertCall : Type := mkUpsertCall {
  uc_now : string;
  uc_query_id : Z;
  uc_repo_item : RepoItem;
  uc_hit_tags : gmap string string
}.

Definition run_upserts (db : Db) (calls : list UpsertCall) : Db :=
  foldl (fun db c =>
           db_upsert_repo_and_hit db (uc_now c) (uc_query_id c) (uc_repo_item c)
                                  (uc_hit_tags c))
        db calls.

(* ===================================================================== *)
(** * Candidate mining                                                    *)
(* ===================================================================== *)

Definition STOPWORDS : gset string :=
  list_to_set
    ["the"; "and"; "or"; "a"; "an"; "for"; "to"; "of"; "in"; "on"; "with"; "by";
     "this"; "that"; "based"; "using"; "use"; "uses"; "used"; "using"; "uses";
     "used"; "from";
     "code"; "codes"; "project"; "repo"; "repository"; "library"; "framework";
     "tool"; "tools"; "software";
     "open"; "source"; "opensource"; "open-source";
     "solver"; "simulation"; "simulator"; "engine";
     "github"; "gitlab"; "example"; "examples"; "tutorial"; "docs";
     "documentation"].

Definition is_digit (c : ascii) : bool :=
  let n := N_of_ascii c in ((48 <=? n) && (n <=? 57))%N.

Definition is_lower_alnum (c : ascii) : bool :=
  let n := N_of_ascii c in is_digit c || ((97 <=? n) && (n <=? 122))%N.

Definition is_upper (c : ascii) : bool :=
  let n := N_of_ascii c in ((65 <=? n) && (n <=? 90))%N.

(** The class [a-zA-Z0-9\-\_] whose complement splits the text. *)
Definition is_split_class (c : ascii) : bool :=
  is_lower_alnum c || is_upper c || bool_decide (c = "-"%char) || bool_decide (c = "_"%char).

(** The class [a-z0-9\-\_] of [TOKEN_RE]. *)
Definition is_token_class (c : ascii) : bool :=
  is_lower_alnum c || bool_decide (c = "-"%char) || bool_decide (c = "_"%char).

Fixpoint string_forallb (p : ascii -> bool) (s : string) : bool :=
  match s with
  | EmptyString => true
  | String c s' => p c && string_forallb p s'
  end.

(** [re.split(r"[^a-zA-Z0-9\-\_]+", text)]: [cur] is the piece being read,
    reversed; [in_sep] tells that the previous character was a separator. *)
Fixpoint re_split_go (cur : string) (in_sep : bool) (text : string) : list string :=
  match text with
  | EmptyString => [String.rev cur]
  | String c text' =>
      if is_split_class c then re_split_go (String c cur) false text'
      else if in_sep then re_split_go cur true text'
      else String.rev cur :: re_split_go EmptyString true text'
  end.

Definition re_split (text : string) : list string := re_split_go EmptyString false text.

(** [t.isdigit()] *)
Definition isdigit (t : string) : bool := truthy t && string_forallb is_digit t.

(** The part of [t] that [$] lets the pattern end at: [t], or [t] without
    its final newline. *)
Fixpoint chomp_newline (t : string) : option string :=
  match t with
  | EmptyString => None
  | String c EmptyString => if bool_decide (c = "010"%char) then Some EmptyString else None
  | String c t' => String c <$> chomp_newline t'
  end.

Definition token_body_ok (body : string) : bool :=
  string_forallb is_token_class body &&
  (2 <=? String.length body)%nat && (String.length body <=? 48)%nat.

(** [TOKEN_RE.match(t)] for [TOKEN_RE = re.compile(r"[a-z0-9][a-z0-9\-\_]{2,48}$")] *)
Definition TOKEN_RE_match (t : string) : bool :=
  match t with
  | EmptyString => false
  | String c body =>
      is_lower_alnum c &&
      (token_body_ok body ||
       match chomp_newline body with
       | Some body' => token_body_ok body'
       | None => false
       end)
  end.

Definition generic_terms : gset string :=
  list_to_set ["readme"; "docs"; "doc"; "test"; "tests"].

(** [def extract_candidate_terms(text)] *)
Definition extract_candidate_terms (text : string) : list string :=
  if negb (truthy text) then []
  else
    let raw := re_split (lower text) in
    filter (fun t =>
              truthy t = true ∧ (t ∉ STOPWORDS) ∧ isdigit t = false ∧
              TOKEN_RE_match t = true ∧ (t ∉ generic_terms))
           (normalize_term <$> raw).

(** [def should_skip_candidate_term(term, existing_keyword_terms)] *)
Definition should_skip_candidate_term (term : string)
    (existing_keyword_terms : gset string) : bool :=
  let t := normalize_term term in
  if negb (truthy t) then true
  else if bool_decide (t ∈ existing_keyword_terms) then true
  else
    existsb (fun kw => if negb (truthy kw) then false else is_infix kw t || is_infix t kw)
            (elements existing_keyword_terms).

(** [def db_add_candidate(conn, term, field, repo_full_name, score_inc)];
    [now] is the value of [utcnow_iso()]. *)
Definition db_add_candidate (db : Db) (now : string) (term field repo_full_name : string)
    (score_inc : Q) : Db :=
  let term := normalize_term term in
  let new_source := mkSource repo_full_name field term in
  match keyword_candidates db !! term with
  | Some row =>
      let sources := _load_json (sources_json row) [] in
      let sources :=
        if (length sources <? 30)%nat then sources ++ [new_source] else sources in
      set_keyword_candidates db
        (<[term := mkCandidateRow (suggested_category row)
                     (score row + score_inc)%Q (occurrences row + 1)
                     (cand_first_seen_at row) now (Some sources) (cand_status row)]>
           (keyword_candidates db))
  | None =>
      set_keyword_candidates db
        (<[term := mkCandidateRow None score_inc 1 now now (Some [new_source]) "pending"]>
           (keyword_candidates db))
  end.

(** [ORDER BY last_seen_at DESC]: NULL sorts below every text. *)
Definition seen_not_before (a b : string * RepoRow) : Prop :=
  match last_seen_at a.2, last_seen_at b.2 with
  | _, None => True
  | None, Some _ => False
  | Some x, Some y => String.le y x
  end.

#[global] Instance seen_not_before_dec : RelDecision seen_not_before.
Proof.
  intros a b. unfold seen_not_before.
  destruct (last_seen_at a.2), (last_seen_at b.2); apply _.
Defined.

(** [SELECT full_name, repo_json, topics_json FROM repos
     ORDER BY last_seen_at DESC LIMIT ?]; a negative LIMIT is no limit. *)
Definition select_recent_repos (db : Db) (limit_repos : Z) : list (string * RepoRow) :=
  let rows := merge_sort seen_not_before (map_to_list (repos db)) in
  if bool_decide (limit_repos < 0) then rows else take (Z.to_nat limit_repos) rows.

(** [{normalize_term(r[0]) for r in cur.fetchall() if r[0]}] over
    [SELECT DISTINCT term FROM keywords] *)
Definition existing_keyword_terms_of (db : Db) : gset string :=
  list_to_set (normalize_term <$> filter (fun t => truthy t = true) (kw_term <$> keywords db)).

Section Extract.

(** The clock: [utcnow_iso n] is the text the [n]-th reading returns. *)
Variable utcnow_iso : nat -> string.

(** A database together with the number of clock readings made so far. *)
Definition add_candidate_at (st : Db * nat) (t field full_name : string) (score_inc : Q)
  : Db * nat :=
  (db_add_candidate st.1 (utcnow_iso st.2) t field full_name score_inc, S st.2).

(** [for t in extract_candidate_terms(desc): ...] *)
Definition scan_description (existing : gset string) (full_name desc : string)
    (st : Db * nat) : Db * nat :=
  foldl (fun st t =>
           if bool_decide (t ∈ STOPWORDS) then st
           else if should_skip_candidate_term t existing then st
           else add_candidate_at st t "description" full_name (3 # 10)%Q)
        st (extract_candidate_terms desc).

(** [for topic in topics: ...] *)
Definition scan_topics (existing : gset string) (full_name : string) (topics : list string)
    (st : Db * nat) : Db * nat :=
  foldl (fun st topic =>
           let t := normalize_term topic in
           if negb (truthy t) || bool_decide (t ∈ STOPWORDS) then st
           else if should_skip_candidate_term t existing then st
           else add_candidate_at st t "topic" full_name 1%Q)
        st topics.

(** The body of [run_extract_candidates] over the selected rows. *)
Definition extract_from_rows (existing : gset string) (rows : list (string * RepoRow))
    (st : Db * nat) : Db * nat :=
  foldl (fun st '(full_name, row) =>
           let desc :=
             match repo_json row with
             | Some repo => default "" (item_description repo)
             | None => ""
             end in
           let topics := _load_json (topics_json row) [] in
           scan_topics existing full_name topics
             (scan_description existing full_name desc st))
        st rows.

(** [def run_extract_candidates(conn, limit_repos)]. The closing UPDATE has
    the condition [WHERE 1=0] and touches no row. *)
Definition run_extract_candidates (db : Db) (limit_repos : Z) : Db :=
  let rows := select_recent_repos db limit_repos in
  let existing_keyword_terms := existing_keyword_terms_of db in
  (extract_from_rows existing_keyword_terms rows (db, 0%nat)).1.

End Extract.

(** One observation handed to [db_add_candidate]. *)
Inductive Field : Type := FromTopic | FromDescription.

#[global] Instance Field_eq_dec : EqDecision Field.
Proof. solve_decision. Defined.

Definition field_name (f : Field) : string :=
  match f with FromTopic => "topic" | FromDescription => "description" end.

(** The [score_inc] that [run_extract_candidates] passes for each field. *)
Definition field_score (f : Field) : Q :=
  match f with FromTopic => 1%Q | FromDescription => (3 # 10)%Q end.

Record Observation : Type := mkObservation {
  obs_term : string;
  obs_field : Field;
  obs_repo : string;
  obs_now : string
}.

Definition observe (db : Db) (o : Observation) : Db :=
  db_add_candidate db (obs_now o) (obs_term o) (field_name (obs_field o)) (obs_repo o)
                   (field_score (obs_field o)).



(* ===================================================================== *)
(** * The harvest loop                                                    *)
(* ===================================================================== *)

Record Request : Type := mkRequest {
  req_query : string;
  req_per_page : Z;
  req_page : Z;
  req_sort : string;
  req_order : string
}.

(** The body of a search response: [data.get("total_count", 0)] and
    [data.get("items", [])] read the two fields. *)
Record SearchData : Type := mkSearchData {
  data_total_count : option Z;
  data_items : option (list RepoItem)
}.

Record Response : Type := mkResponse {
  status_code : Z;
  text : string;
  json : result SearchData      (* [resp.json()], which raises on a bad body *)
}.

(** What [client.search_repositories] does: it returns a response or raises. *)
Inductive Reply : Type :=
  | Responded (resp : Response)
  | Failed (e : Exn).

(** The database, the requests sent so far and the number of clock readings. *)
Record World : Type := mkWorld {
  w_db : Db;
  w_log : list Request;
  w_ticks : nat
}.

Record HarvestParams : Type := mkHarvestParams {
  steps : Z;
  per_page : Z;
  pages_per_query : Z;
  p_sort : string;
  p_order : string;
  min_stars : option Z;
  max_stars : option Z;
  min_forks : option Z;
  max_forks : option Z;
  min_watchers : option Z;
  max_watchers : option Z;
  min_topics : option Z;
  max_topics : option Z;
  max_query_attempts : Z
}.

(** The local variables of [run_harvest] together with the world. *)
Record Harvest : Type := mkHarvest {
  h_world : World;
  h_rng : Rng;
  executed_steps : Z;
  attempts : Z
}.

(** How the [try] block of one step ends: by running to its end (also after
    a [break]) or in the [except] clause. *)
Inductive PagingEnd : Type :=
  | Finished (w : World) (total_count : option Z)
  | Excepted (w : World) (total_count : option Z) (e : Exn).

Section HarvestLoop.

(** The upstream: what the search endpoint answers to a request, given the
    requests sent before it. *)
Variable search_repositories : list Request -> Request -> Reply.

(** The clock: [utcnow_iso n] is the text the [n]-th reading returns. *)
Variable utcnow_iso : nat -> string.

Definition mark_query_executed (w : World) (qid status : Z) (total_count : option Z)
    (error : option string) : World :=
  mkWorld (db_mark_query_executed (w_db w) (utcnow_iso (w_ticks w)) qid status total_count error)
          (w_log w) (S (w_ticks w)).

(** [for item in items: db_upsert_repo_and_hit(conn, qid, item, hit_tags)];
    the call reads the clock only past its [full_name] guard. *)
Definition upsert_items (w : World) (qid : Z) (hit_tags : gmap string string)
    (items : list RepoItem) : World :=
  foldl (fun w item =>
           mkWorld (db_upsert_repo_and_hit (w_db w) (utcnow_iso (w_ticks w)) qid item hit_tags)
                   (w_log w)
                   (if truthy (default "" (item_full_name item)) then S (w_ticks w)
                    else w_ticks w))
        w items.

(** [for page in range(1, pages_per_query + 1): ...] inside the [try].
    [maybe_sleep_from_rate_limit] only waits and is left out. *)
Fixpoint paging (p : HarvestParams) (query : string) (qid : Z)
    (hit_tags : gmap string string) (pages : list Z) (w : World)
    (total_count : option Z) : PagingEnd :=
  match pages with
  | [] => Finished w total_count
  | page :: rest =>
      let req := mkRequest query (per_page p) page (p_sort p) (p_order p) in
      let reply := search_repositories (w_log w) req in
      let w := mkWorld (w_db w) (w_log w ++ [req]) (w_ticks w) in
      match reply with
      | Failed e => Excepted w total_count e
      | Responded resp =>
          if negb (bool_decide (status_code resp = 200)) then
            (* record the failure, then [break] *)
            Finished (mark_query_executed w qid (status_code resp) None
                        (Some (take_prefix 5000 (text resp))))
                     total_count
          else
            match json resp with
            | Raise e => Excepted w total_count e
            | Ok data =>
                let total_count :=
                  match total_count with
                  | None => Some (default 0 (data_total_count data))
                  | Some _ => total_count
                  end in
                match default [] (data_items data) with
                | [] => Finished w total_count     (* [break] *)
                | items =>
                    paging p query qid hit_tags rest (upsert_items w qid hit_tags items)
                           total_count
                end
            end
      end
  end.

(** One pass through the body of the [while] loop. An exception raised
    before the [try] leaves [run_harvest]. *)
Definition harvest_iteration (p : HarvestParams) (s : Harvest) : result Harvest :=
  let attempts := attempts s + 1 in
  let w := h_world s in
  '(query, hit_tags, recipe, rng) ← make_random_query (w_db w) (h_rng s);
  query ← apply_repo_filters_to_query query (min_stars p) (max_stars p) (min_forks p)
            (max_forks p) (min_watchers p) (max_watchers p) (min_topics p) (max_topics p);
  '(db, qid) ← db_insert_query_if_new (w_db w) query recipe;
  let w := mkWorld db (w_log w) (w_ticks w) in
  if db_query_is_executed db qid then
    Ok (mkHarvest w rng (executed_steps s) attempts)      (* [continue] *)
  else
    match paging p query qid hit_tags (seqZ 1 (pages_per_query p)) w None with
    | Finished w total_count =>
        Ok (mkHarvest (mark_query_executed w qid 200 total_count None) rng
                      (executed_steps s + 1) attempts)
    | Excepted w total_count e =>
        Ok (mkHarvest (mark_query_executed w qid 0 total_count (Some (repr_exn e))) rng
                      (executed_steps s) attempts)
    end.

(** [executed_steps < steps and attempts < (steps * max_query_attempts)] *)
Definition loop_condition (p : HarvestParams) (s : Harvest) : bool :=
  bool_decide (executed_steps s < steps p) &&
  bool_decide (attempts s < steps p * max_query_attempts p).

(** The [while] loop; [budget] bounds the passes still possible, every pass
    adding one to [attempts]. *)
Fixpoint harvest_loop (p : HarvestParams) (budget : nat) (s : Harvest) : result Harvest :=
  match budget with
  | O => Ok s
  | S budget' =>
      if loop_condition p s then
        s' ← harvest_iteration p s; harvest_loop p budget' s'
      else Ok s
  end.

(** [def run_harvest(conn, client, steps, ..., max_query_attempts)];
    [rng] is [random.Random(seed)]. *)
Definition run_harvest (p : HarvestParams) (db : Db) (rng : Rng) : result Harvest :=
  harvest_loop p (Z.to_nat (steps p * max_query_attempts p))
    (mkHarvest (mkWorld db [] 0%nat) rng 0 0).

End HarvestLoop.

(* ===================================================================== *)
(** * The keyword store: seeding and promotion                            *)
(* ===================================================================== *)

Definition set_keywords (db : Db) (ks : list KeywordRec) : Db :=
  {| keywords := ks; keyword_candidates := keyword_candidates db;
     queries := queries db; repos := repos db; repo_hits := repo_hits db |}.

Definition SEED_KEYWORDS : list (string * string * Q * string) :=
  [ ("domain", "cfd", 1, "manual"); ("domain", "fluid", 1, "manual");
    ("domain", "navier-stokes", 1, "manual"); ("domain", "turbulence", 8 # 10, "manual");
    ("domain", "multiphase", 7 # 10, "manual"); ("domain", "combustion", 6 # 10, "manual");
    ("domain", "structural", 1, "manual"); ("domain", "solid-mechanics", 1, "manual");
    ("domain", "elasticity", 7 # 10, "manual"); ("domain", "plasticity", 7 # 10, "manual");
    ("domain", "fracture", 7 # 10, "manual"); ("domain", "contact", 6 # 10, "manual");
    ("domain", "thermal", 8 # 10, "manual"); ("domain", "heat-transfer", 8 # 10, "manual");
    ("domain", "radiation", 6 # 10, "manual");
    ("domain", "electromagnetics", 1, "manual"); ("domain", "maxwell", 9 # 10, "manual");
    ("domain", "fdtd", 7 # 10, "manual"); ("domain", "photonics", 7 # 10, "manual");
    ("domain", "optics", 8 # 10, "manual");
    ("domain", "ray-tracing", 1, "manual"); ("domain", "raytracing", 8 # 10, "manual");
    ("domain", "optical-design", 7 # 10, "manual"); ("domain", "illumination", 6 # 10, "manual");
    ("domain", "path-tracing", 6 # 10, "manual"); ("domain", "photon-mapping", 5 # 10, "manual");
    ("domain", "brdf", 5 # 10, "manual"); ("domain", "bsdf", 5 # 10, "manual");
    ("domain", "fresnel", 5 # 10, "manual");
    ("domain", "semiconductor", 1, "manual"); ("domain", "tcad", 9 # 10, "manual");
    ("domain", "device-simulation", 7 # 10, "manual");
    ("domain", "drift-diffusion", 7 # 10, "manual");
    ("domain", "quantum-transport", 6 # 10, "manual");
    ("domain", "molecular-dynamics", 9 # 10, "manual"); ("domain", "dft", 8 # 10, "manual");
    ("domain", "electronic-structure", 7 # 10, "manual");
    ("domain", "kinetic-monte-carlo", 6 # 10, "manual");
    ("domain", "phase-field", 7 # 10, "manual");
    ("method", "fem", 1, "manual"); ("method", "finite-element", 1, "manual");
    ("method", "fea", 8 # 10, "manual"); ("method", "dg", 6 # 10, "manual");
    ("method", "discontinuous-galerkin", 6 # 10, "manual");
    ("method", "finite-volume", 8 # 10, "manual"); ("method", "fvm", 7 # 10, "manual");
    ("method", "finite-difference", 7 # 10, "manual"); ("method", "fdm", 6 # 10, "manual");
    ("method", "bem", 5 # 10, "manual"); ("method", "boundary-element", 5 # 10, "manual");
    ("method", "lbm", 5 # 10, "manual"); ("method", "lattice-boltzmann", 5 # 10, "manual");
    ("method", "sph", 5 # 10, "manual"); ("method", "mpm", 4 # 10, "manual");
    ("method", "path-tracing", 6 # 10, "manual"); ("method", "ray-tracing", 8 # 10, "manual");
    ("method", "photon-mapping", 5 # 10, "manual"); ("method", "monte-carlo", 6 # 10, "manual");
    ("intent", "solver", 1, "manual"); ("intent", "simulation", 1, "manual");
    ("intent", "simulator", 8 # 10, "manual"); ("intent", "engine", 8 # 10, "manual");
    ("intent", "multiphysics", 7 # 10, "manual"); ("intent", "benchmark", 4 # 10, "manual");
    ("intent", "examples", 4 # 10, "manual"); ("intent", "tutorial", 4 # 10, "manual");
    ("hpc", "mpi", 7 # 10, "manual"); ("hpc", "openmp", 5 # 10, "manual");
    ("hpc", "cuda", 5 # 10, "manual"); ("hpc", "gpu", 6 # 10, "manual");
    ("hpc", "petsc", 6 # 10, "manual"); ("hpc", "trilinos", 5 # 10, "manual");
    ("hpc", "hypre", 4 # 10, "manual") ]%Q.

(** [def db_keyword_exists(conn, category, term)] *)
Definition db_keyword_exists (db : Db) (cat t : string) : bool :=
  existsb (fun r => bool_decide (kw_category r = cat ∧ kw_term r = t)) (keywords db).

(** The id AUTOINCREMENT gives the next keyword row. *)
Definition next_keyword_id (ks : list KeywordRec) : Z :=
  1 + foldr Z.max 0 (kw_id <$> ks).

(** [INSERT OR IGNORE INTO keywords(category, term, weight, status, source,
    created_at, updated_at) VALUES (?, ?, ?, 'active', ?, ?, ?)]: ignored
    when a row holds the pair (category, term), which is UNIQUE. *)
Definition insert_keyword_or_ignore (db : Db) (now cat t : string) (w : Q)
    (source : string) : Db :=
  if db_keyword_exists db cat t then db
  else
    set_keywords db
      (keywords db ++
       [mkKeywordRec (next_keyword_id (keywords db)) cat t w "active" source now now]).

(** [def db_seed_keywords(conn)]: the database and the number [n] of seed
    rows attempted; [now] is read once. *)
Definition db_seed_keywords (db : Db) (now : string) : Db * Z :=
  foldl (fun (st : Db * Z) '(cat, t, w, source) =>
           (insert_keyword_or_ignore st.1 now cat t w source, st.2 + 1))
        (db, 0) SEED_KEYWORDS.

(** [def db_promote_candidate(conn, term, category, weight, source)] *)
Definition db_promote_candidate (db : Db) (now t cat : string) (w : Q)
    (source : string) : Db :=
  let t := normalize_term t in
  let db := insert_keyword_or_ignore db now cat t w source in
  set_keyword_candidates db
    (alter (fun row =>
              mkCandidateRow (suggested_category row) (score row) (occurrences row)
                (cand_first_seen_at row) (cand_last_seen_at row) (sources_json row)
                "promoted")
           t (keyword_candidates db)).

(** The counters of a batch promotion. *)
Record PromoteTally : Type := mkPromoteTally {
  promoted : Z;
  skipped_exists : Z;
  skipped_missing_term : Z;
  skipped_missing_category : Z;
  skipped_invalid_weight : Z
}.

(** The arguments of the [promote] command. [arg_csv] holds the rows
    [csv.DictReader] yields when [--csv] names a file. *)
Record PromoteArgs : Type := mkPromoteArgs {
  arg_csv : option (list (gmap string string));
  arg_term : option string;
  arg_category : option string;
  arg_weight : Q;
  arg_source : string
}.

(** [x or y] on two optional strings. *)
Definition or_else (x : option string) (y : option string) : option string :=
  match x with
  | Some s => if truthy s then Some s else y
  | None => y
  end.

Section Promote.

(** [float(text)]: the number read, or [None] where Python raises
    [ValueError]. *)
Variable parse_float : string -> option Q.

Variable utcnow_iso : nat -> string.

(** The body of the [for row in reader] loop of the batch mode. *)
Definition promote_csv_row (args : PromoteArgs) (st : Db * nat * PromoteTally)
    (row : gmap string string) : Db * nat * PromoteTally :=
  let '(db, ticks, tally) := st in
  let t := normalize_term (strip (default "" (or_else (row !! "term") None))) in
  if negb (truthy t) then
    (db, ticks,
     mkPromoteTally (promoted tally) (skipped_exists tally)
       (skipped_missing_term tally + 1) (skipped_missing_category tally)
       (skipped_invalid_weight tally))
  else
    let cat :=
      strip (default ""
               (or_else (row !! "category")
                  (or_else (row !! "suggested_category") (or_else (arg_category args) None)))) in
    if negb (truthy cat) then
      (db, ticks,
       mkPromoteTally (promoted tally) (skipped_exists tally)
         (skipped_missing_term tally) (skipped_missing_category tally + 1)
         (skipped_invalid_weight tally))
    else
      let row_weight := strip (default "" (or_else (row !! "weight") None)) in
      let parsed :=
        if truthy row_weight then parse_float row_weight else Some (arg_weight args) in
      match parsed with
      | None =>
          (db, ticks,
           mkPromoteTally (promoted tally) (skipped_exists tally)
             (skipped_missing_term tally) (skipped_missing_category tally)
             (skipped_invalid_weight tally + 1))
      | Some w =>
          let source :=
            strip (default "auto"
                     (or_else (row !! "source") (or_else (Some (arg_source args)) None))) in
          if db_keyword_exists db cat t then
            (db, ticks,
             mkPromoteTally (promoted tally) (skipped_exists tally + 1)
               (skipped_missing_term tally) (skipped_missing_category tally)
               (skipped_invalid_weight tally))
          else
            (db_promote_candidate db (utcnow_iso ticks) t cat w source, S ticks,
             mkPromoteTally (promoted tally + 1) (skipped_exists tally)
               (skipped_missing_term tally) (skipped_missing_category tally)
               (skipped_invalid_weight tally))
      end.

(** [def cmd_promote(args)] on an opened database: the database, and the
    tally in batch mode. *)
Definition cmd_promote (args : PromoteArgs) (db : Db) : result (Db * option PromoteTally) :=
  match arg_csv args with
  | Some rows =>
      let '(db, _, tally) :=
        foldl (promote_csv_row args) (db, 0%nat, mkPromoteTally 0 0 0 0 0) rows in
      Ok (db, Some tally)
  | None =>
      if negb (truthy (default "" (arg_term args))) then
        Raise (RuntimeError "term is required unless --csv is used.")
      else if negb (truthy (default "" (arg_category args))) then
        Raise (RuntimeError "--category is required for single-term promote.")
      else
        let t := normalize_term (default "" (arg_term args)) in
        let cat := default "" (arg_category args) in
        if db_keyword_exists db cat t then Ok (db, None)
        else
          Ok (db_promote_candidate db (utcnow_iso 0) t cat (arg_weight args)
                                   (arg_source args), None)
  end.

End Promote.

(* ===================================================================== *)
(** * Category suggestion                                                 *)
(* ===================================================================== *)

(** [def infer_candidate_category(term)] *)
Definition infer_candidate_category (t : string) : option string :=
  if bool_decide (t ∈ (list_to_set ["mpi"; "openmp"; "cuda"; "gpu"; "petsc"; "trilinos";
                                    "hypre"] : gset string)) then Some "hpc"
  else if bool_decide (t ∈ (list_to_set ["fem"; "fea"; "finite-element"; "finite-volume";
                                         "fvm"; "fdm"; "fdtd"; "bem"; "lbm"; "sph"; "mpm";
                                         "ray-tracing"; "path-tracing"] : gset string))
  then Some "method"
  else if bool_decide (t ∈ (list_to_set ["solver"; "simulation"; "simulator"; "engine";
                                         "multiphysics"] : gset string)) then Some "intent"
  else None.

(** [ORDER BY score DESC, occurrences DESC] *)
Definition ranked_before (a b : string * CandidateRow) : Prop :=
  match (score a.2 ?= score b.2)%Q with
  | Gt => True
  | Eq => occurrences b.2 ≤ occurrences a.2
  | Lt => False
  end.

#[global] Instance ranked_before_dec : RelDecision ranked_before.
Proof.
  intros a b. unfold ranked_before. destruct (score a.2 ?= score b.2)%Q; apply _.
Defined.

(** [SELECT term FROM keyword_candidates WHERE status='pending'
     ORDER BY score DESC, occurrences DESC LIMIT ?] *)
Definition select_pending_terms (db : Db) (top_n : Z) : list string :=
  let rows :=
    merge_sort ranked_before
      (filter (fun kv => cand_status kv.2 = "pending") (map_to_list (keyword_candidates db))) in
  fst <$> (if bool_decide (top_n < 0) then rows else take (Z.to_nat top_n) rows).

(** [UPDATE keyword_candidates SET suggested_category=? WHERE term=? AND
     (suggested_category IS NULL OR suggested_category='')] *)
Definition set_suggestion_if_unset (db : Db) (t cat : string) : Db :=
  set_keyword_candidates db
    (alter (fun row =>
              if truthy (default "" (suggested_category row)) then row
              else mkCandidateRow (Some cat) (score row) (occurrences row)
                     (cand_first_seen_at row) (cand_last_seen_at row) (sources_json row)
                     (cand_status row))
           t (keyword_candidates db)).

(** [def run_suggest_categories(conn, top_n)]: the database and the counter
    [updated] that is printed. *)
Definition run_suggest_categories (db : Db) (top_n : Z) : Db * Z :=
  foldl (fun (st : Db * Z) t =>
           match infer_candidate_category t with
           | Some cat =>
               if truthy cat then (set_suggestion_if_unset st.1 t cat, st.2 + 1) else st
           | None => st
           end)
        (db, 0) (select_pending_terms db top_n).

(* ===================================================================== *)
(** * Topic enrichment                                                    *)
(* ===================================================================== *)

Definition set_repos (db : Db) (rs : gmap string RepoRow) : Db :=
  set_repos_and_hits db rs (repo_hits db).

(** [def db_get_repos_missing_topics(conn, limit)]: the rows whose
    [topics_json] is NULL, empty, unparsable or an empty array, most
    recently seen first. *)
Definition db_get_repos_missing_topics (db : Db) (limit : Z) : list string :=
  let rows :=
    merge_sort seen_not_before
      (filter (fun kv => _load_json (topics_json kv.2) [] = [])
              (map_to_list (repos db))) in
  fst <$> (if bool_decide (limit < 0) then rows else take (Z.to_nat limit) rows).

(** [def db_update_repo_details_and_topics(conn, full_name, repo_detail)] *)
Definition db_update_repo_details_and_topics (db : Db) (now full_name : string)
    (repo_detail : RepoItem) : Db :=
  let topics := default [] (item_topics repo_detail) in
  set_repos db
    (alter (fun row =>
              mkRepoRow (repo_html_url row) (repo_api_url row) (repo_description row)
                        (first_seen_at row) (Some now) (repo_json row)
                        (Some topics) (merged_tags_json row))
           full_name (repos db)).

(** The answer of the repository detail endpoint. *)
Record DetailResponse : Type := mkDetailResponse {
  detail_status_code : Z;
  detail_json : result RepoItem
}.

Inductive DetailReply : Type :=
  | DetailResponded (resp : DetailResponse)
  | DetailFailed (e : Exn).

(** The database, the repositories asked for so far and the clock readings. *)
Record EnrichWorld : Type := mkEnrichWorld {
  e_db : Db;
  e_log : list string;
  e_ticks : nat
}.

Section Enrich.

Variable get_repo_details_with_topics : list string -> string -> DetailReply.
Variable utcnow_iso : nat -> string.

(** The body of the loop of [run_enrich_topics]; nothing catches what the
    client or [resp.json()] raise. *)
Definition enrich_one (w : EnrichWorld) (full_name : string) : result EnrichWorld :=
  let reply := get_repo_details_with_topics (e_log w) full_name in
  let w := mkEnrichWorld (e_db w) (e_log w ++ [full_name]) (e_ticks w) in
  match reply with
  | DetailFailed e => Raise e
  | DetailResponded resp =>
      if negb (bool_decide (detail_status_code resp = 200)) then Ok w
      else
        detail ← detail_json resp;
        Ok (mkEnrichWorld
              (db_update_repo_details_and_topics (e_db w) (utcnow_iso (e_ticks w))
                                                 full_name detail)
              (e_log w) (S (e_ticks w)))
  end.

Fixpoint enrich_targets (w : EnrichWorld) (targets : list string) : result EnrichWorld :=
  match targets with
  | [] => Ok w
  | full_name :: rest => w' ← enrich_one w full_name; enrich_targets w' rest
  end.

(** [def run_enrich_topics(conn, client, limit, min_sleep)] *)
Definition run_enrich_topics (db : Db) (limit : Z) : result EnrichWorld :=
  enrich_targets (mkEnrichWorld db [] 0%nat) (db_get_repos_missing_topics db limit).

End Enrich.

(* ===================================================================== *)
(** * README helpers                                                      *)
(* ===================================================================== *)

(** The text after the prefix [p] of [s], when [s] starts with [p]. *)
Fixpoint drop_prefix (p s : string) : option string :=
  match p, s with
  | EmptyString, _ => Some s
  | String a p', String b s' => if bool_decide (a = b) then drop_prefix p' s' else None
  | String _ _, EmptyString => None
  end.

(** The longest prefix of [s] whose characters satisfy [f], and the rest. *)
Fixpoint span (f : ascii -> bool) (s : string) : string * string :=
  match s with
  | EmptyString => (EmptyString, EmptyString)
  | String c s' =>
      if f c then let '(a, b) := span f s' in (String c a, b)
      else (EmptyString, s)
  end.

(** The class [[^/\s]] of the owner group. *)
Definition is_owner_char (c : ascii) : bool :=
  negb (bool_decide (c = "/"%char)) && negb (is_space c).

(** The class [[^/\s?#]] of the repository group. *)
Definition is_repo_char (c : ascii) : bool :=
  is_owner_char c && negb (bool_decide (c = "?"%char)) && negb (bool_decide (c = "#"%char)).

(** [s.endswith(suffix)] *)
Definition ends_with (suffix s : string) : bool :=
  is_prefix (String.rev suffix) (String.rev s).

(** [s[:-n]] for [n > 0] *)
Definition drop_last (n : nat) (s : string) : string :=
  take_prefix (String.length s - n) s.

(** [re.match(r"^https?://github\.com/([^/\s]+)/([^/\s?#]+)", url)]: the
    two groups. *)
Definition match_github_url (url : string) : option (string * string) :=
  let after_host :=
    match drop_prefix "https://github.com/" url with
    | Some rest => Some rest
    | None => drop_prefix "http://github.com/" url
    end in
  match after_host with
  | None => None
  | Some rest =>
      let '(owner, rest) := span is_owner_char rest in
      match owner, rest with
      | String _ _, String "/" rest =>
          let '(repo, _) := span is_repo_char rest in
          match repo with
          | String _ _ => Some (owner, repo)
          | EmptyString => None
          end
      | _, _ => None
      end
  end.

(** [def extract_full_name_from_html_url(html_url)] *)
Definition extract_full_name_from_html_url (html_url : string) : option string :=
  if negb (truthy html_url) then None
  else
    match match_github_url (strip html_url) with
    | None => None
    | Some (owner, repo) =>
        let owner := strip owner in
        let repo := strip repo in
        let repo := if ends_with ".git" repo then drop_last 4 repo else repo in
        if negb (truthy owner) || negb (truthy repo) then None
        else Some (owner +:+ "/" +:+ repo)
    end.

(** [s.replace('/', '__')] *)
Fixpoint replace_slash (s : string) : string :=
  match s with
  | EmptyString => EmptyString
  | String c s' =>
      if bool_decide (c = "/"%char) then String "_" (String "_" (replace_slash s'))
      else String c (replace_slash s')
  end.

(** [def make_readme_filename(full_name)] *)
Definition make_readme_filename (full_name : string) : string :=
  replace_slash full_name +:+ ".md".

(* ===================================================================== *)
(** * Auxiliary notions used in the statements                            *)
(* ===================================================================== *)

(** The set a hit contributes to a category. *)
Definition incoming_term (hv : option string) : gset string :=
  match hv with
  | Some v => {[v]}
  | None => ∅
  end.


(** The key constraints of [queries]: PRIMARY KEY on [id], UNIQUE on
    [query]. *)
Definition queries_unique (db : Db) : Prop :=
  NoDup (q_id <$> queries db) ∧ NoDup (q_query <$> queries db).

(** The hit a call of [db_upsert_repo_and_hit] appends, if any. *)
Definition hit_of_call (c : UpsertCall) : option RepoHit :=
  match item_full_name (uc_repo_item c) with
  | Some full_name =>
      if truthy full_name
      then Some (mkRepoHit (uc_query_id c) full_name (uc_now c) (uc_hit_tags c))
      else None
  | None => None
  end.

(** [FOREIGN KEY(repo_full_name) REFERENCES repos(full_name)] *)
Definition hits_reference_repos (db : Db) : Prop :=
  Forall (fun hit => is_Some (repos db !! hit_repo_full_name hit)) (repo_hits db).

(** The world in which the [try] block of a step ends. *)
Definition paging_world (e : PagingEnd) : World :=
  match e with
  | Finished w _ => w
  | Excepted w _ _ => w
  end.

(** [db'] differs from [db] at most in the execution record of the query
    [qid] and in the repository tables. *)
Definition marked_only (qid : Z) (db db' : Db) : Prop :=
  q_id <$> queries db' = q_id <$> queries db ∧
  q_query <$> queries db' = q_query <$> queries db ∧
  keywords db' = keywords db ∧
  keyword_candidates db' = keyword_candidates db ∧
  ∀ row, row ∈ queries db → q_id row ≠ qid → row ∈ queries db'.

(* ===================================================================== *)
(** * Sample data                                                         *)
(* ===================================================================== *)

(** A generator whose every draw is the smallest value: [rng.random()]
    returns [0.0] and [rng.choice] takes the first element. *)
Definition rng_zero : Rng := mkRng (fun _ => 0%Q) (fun _ => 0%nat) 0.

(** Two active keyword rows of one category, the first of weight zero. *)
Definition rows_zero_first : list KeywordRow :=
  [mkKeywordRow 1 "domain" "acoustics" 0; mkKeywordRow 2 "domain" "cfd" 1].

(** The clock of the examples: every reading returns the same instant. *)
Definition sample_clock : nat -> string := fun _ => "2026-01-01T00:00:00Z".

Definition active_keyword (i : Z) (cat t : string) (w : Q) : KeywordRec :=
  mkKeywordRec i cat t w "active" "manual" "2026-01-01T00:00:00Z" "2026-01-01T00:00:00Z".

(** The seed vocabulary of the specification's scenarios. *)
Definition db_seed : Db :=
  mkDb [active_keyword 1 "domain" "cfd" 1; active_keyword 2 "method" "fem" 1;
        active_keyword 3 "intent" "solver" 1]
       ∅ [] ∅ [].

(** An upstream that answers every search with HTTP 403. *)
Definition client_403 : list Request -> Request -> Reply :=
  fun _ _ =>
    Responded (mkResponse 403 "API rate limit exceeded"
                          (Raise (TransportError "JSONDecodeError"))).

(** One step, two pages per query, no qualifier. *)
Definition params_one_step : HarvestParams :=
  mkHarvestParams 1 50 2 "updated" "desc" None None None None None None None None 50.

(** The database of [db_seed] after the query "cfd fem solver" has run. *)
Definition db_cached : Db :=
  set_queries db_seed
    [mkQueryRow 1 "cfd fem solver" (mkRecipe "DMI" [] None)
                (Some "2026-01-01T00:00:00Z") (Some 200) (Some 0) None].

(** A repository row with one topic and no raw snapshot. *)
Definition repo_with_topic (topic : string) : RepoRow :=
  mkRepoRow None None None (Some "2026-01-01T00:00:00Z") (Some "2026-01-01T00:00:00Z")
            None (Some [topic]) (Some ∅).

Definition db_fem_topic : Db :=
  mkDb [active_keyword 2 "method" "fem" 1] ∅ [] {["a/b" := repo_with_topic "xfem"]} [].

(** The keyword row that [promote " " --category domain] stores: the
    blank argument passes [if not args.term] and normalises to the empty
    term. *)
Definition empty_keyword : KeywordRec :=
  mkKeywordRec 1 "domain" "" (4 # 10) "active" "auto"
               "2026-01-01T00:00:00Z" "2026-01-01T00:00:00Z".

Definition db_empty_keyword : Db :=
  mkDb [empty_keyword] ∅ [] {["a/b" := repo_with_topic "mesh"]} [].

(** A repository record without [full_name]. *)
Definition item_without_name : RepoItem :=
  mkRepoItem None (Some "https://github.com/a/b") None (Some "A CFD solver") (Some ["cfd"]).

(* ===================================================================== *)
(** * Properties                                                          *)
(* ===================================================================== *)

(** ** Numeric qualifiers *)

(** C6. [_build_numeric_qualifier name min max] raises (a [ValueError])
    exactly when [min < 0], [max < 0], or both bounds are given with
    [min > max]; it returns [None] when both bounds are absent,
    [name:min..max] when both are given with [min <= max] (so also for
    [min = max]), [name:>=min] when only [min] is given and [name:<=max]
    when only [max] is given. *)
Theorem build_numeric_qualifier_spec (name : string) (min_value max_value : option Z) :
  ((∃ e, _build_numeric_qualifier name min_value max_value = Raise e) ↔
   ((∃ mn, min_value = Some mn ∧ mn < 0) ∨
    (∃ mx, max_value = Some mx ∧ mx < 0) ∨
    (∃ mn mx, min_value = Some mn ∧ max_value = Some mx ∧ mn > mx))) ∧
  (∀ e, _build_numeric_qualifier name min_value max_value = Raise e →
        ∃ msg, e = ValueError msg) ∧
  (min_value = None → max_value = None →
   _build_numeric_qualifier name min_value max_value = Ok None) ∧
  (∀ mn mx, min_value = Some mn → max_value = Some mx → 0 ≤ mn → 0 ≤ mx → mn ≤ mx →
   _build_numeric_qualifier name min_value max_value
   = Ok (Some (name +:+ ":" +:+ pretty mn +:+ ".." +:+ pretty mx))) ∧
  (∀ mn, min_value = Some mn → max_value = None → 0 ≤ mn →
   _build_numeric_qualifier name min_value max_value
   = Ok (Some (name +:+ ":>=" +:+ pretty mn))) ∧
  (∀ mx, min_value = None → max_value = Some mx → 0 ≤ mx →
   _build_numeric_qualifier name min_value max_value
   = Ok (Some (name +:+ ":<=" +:+ pretty mx))).
Proof.
  unfold _build_numeric_qualifier, given_and_negative.
  destruct min_value as [mn|], max_value as [mx|];
    repeat case_bool_decide; repeat split;
    try (intros; simplify_eq; try done; try lia; eauto; fail).
  all: try (intros [e He]; simplify_eq; eauto 10; fail).
  all: try (intros [(? & ? & ?)|[(? & ? & ?)|(? & ? & ? & ? & ?)]]; simplify_eq; eauto; lia).
Qed.

(** The bounds 3..3 are accepted and rendered as a range. *)
Lemma build_numeric_qualifier_spec_witness :
  _build_numeric_qualifier "stars" (Some 3) (Some 3) = Ok (Some "stars:3..3").
Proof.
  apply (proj1 (proj2 (proj2 (proj2 (build_numeric_qualifier_spec "stars" (Some 3) (Some 3)))))
           3 3); (reflexivity || lia).
Defined.

(** ** The query cache *)

Lemma find_by_key_NoDup {A B} `{EqDecision B} (f : A → B) (l : list A) (x : A) :
  NoDup (f <$> l) → x ∈ l →
  find (fun r => bool_decide (f r = f x)) l = Some x.
Proof.
  induction l as [|y l IH]; intros Hnd Hin; [by apply elem_of_nil in Hin|].
  rewrite fmap_cons in Hnd. apply NoDup_cons in Hnd as [Hy Hnd].
  cbn [find]. apply elem_of_cons in Hin as [->|Hin].
  - by rewrite bool_decide_eq_true_2.
  - rewrite bool_decide_eq_false_2; [by apply IH|].
    intros Heq. apply Hy. rewrite Heq. by apply list_elem_of_fmap_2.
Qed.

Lemma find_elem_of {A} (p : A → bool) (l : list A) (x : A) :
  find p l = Some x → x ∈ l ∧ p x = true.
Proof.
  induction l as [|y l IH]; [done|]. cbn [find].
  destruct (p y) eqn:Hp.
  - intros [= ->]. split; [left|done].
  - intros [Hin ?]%IH. split; [by right|done].
Qed.

(** C9. [db_insert_query_if_new] called with a query string that already
    has a row (the column is UNIQUE) leaves the whole database as it was, so
    the row keeps its [recipe_json] and its [executed_at], and returns the id
    of that row. *)
Theorem db_insert_query_if_new_existing (db : Db) (query : string) (recipe : Recipe)
    (row : QueryRow) :
  NoDup (q_query <$> queries db) →
  row ∈ queries db →
  q_query row = query →
  db_insert_query_if_new db query recipe = Ok (db, q_id row) ∧
  ∀ db' qid, db_insert_query_if_new db query recipe = Ok (db', qid) →
    select_query_by_text db' query = Some row ∧
    recipe_json <$> select_query_by_text db' query = Some (recipe_json row) ∧
    executed_at <$> select_query_by_text db' query = Some (executed_at row).
Proof.
  intros Hnd Hin <-.
  assert (Hfind : select_query_by_text db (q_query row) = Some row)
    by (by apply find_by_key_NoDup).
  assert (Hres : db_insert_query_if_new db (q_query row) recipe = Ok (db, q_id row)).
  { unfold db_insert_query_if_new. by rewrite !Hfind. }
  split; [done|]. intros db' qid. rewrite Hres. intros [= <- <-].
  by rewrite Hfind.
Qed.

(** ** The [full_name] guard of the merger *)

(** C10. For every [query_id], [hit_tags] and [repo_item] whose
    [full_name] is missing or empty, [db_upsert_repo_and_hit] returns the
    database unchanged: no [repos] row is inserted or updated and no
    [repo_hits] row is appended. *)
Theorem db_upsert_repo_and_hit_without_full_name (db : Db) (now : string) (query_id : Z)
    (repo_item : RepoItem) (hit_tags : gmap string string) :
  item_full_name repo_item = None ∨ item_full_name repo_item = Some "" →
  db_upsert_repo_and_hit db now query_id repo_item hit_tags = db ∧
  repos (db_upsert_repo_and_hit db now query_id repo_item hit_tags) = repos db ∧
  repo_hits (db_upsert_repo_and_hit db now query_id repo_item hit_tags) = repo_hits db.
Proof.
  intros Hname.
  assert (db_upsert_repo_and_hit db now query_id repo_item hit_tags = db) as ->; [|done].
  unfold db_upsert_repo_and_hit. by destruct Hname as [-> | ->].
Qed.

(** ** Tag merge *)

Lemma list_to_set_sorted (X : gset string) : list_to_set (sorted X) = X.
Proof.
  unfold sorted.
  rewrite (list_to_set_perm_L _ _ (merge_sort_Permutation String.le (elements X))).
  apply list_to_set_elements_L.
Qed.

Lemma elem_of_sorted (X : gset string) (x : string) : x ∈ sorted X ↔ x ∈ X.
Proof. by rewrite <- (list_to_set_sorted X) at 2; rewrite elem_of_list_to_set. Qed.

Lemma NoDup_sorted (X : gset string) : NoDup (sorted X).
Proof.
  unfold sorted. rewrite (merge_sort_Permutation String.le (elements X)).
  apply NoDup_elements.
Qed.

Lemma Sorted_sorted (X : gset string) : Sorted String.le (sorted X).
Proof. apply (Sorted_merge_sort String.le). Qed.

(** What [merge_repo_tags] holds for a category: nothing when neither map
    has it, otherwise the sorted union of the existing terms and the
    incoming term. *)
Lemma merge_repo_tags_lookup (existing : gmap string (list string))
    (hit_tags : gmap string string) (k : string) :
  merge_repo_tags existing hit_tags !! k =
  match existing !! k, hit_tags !! k with
  | None, None => None
  | e, hv => Some (sorted (list_to_set (default [] e) ∪ incoming_term hv))
  end.
Proof.
  unfold merge_repo_tags. rewrite lookup_fmap.
  match goal with |- context [map_fold ?f ?b hit_tags] =>
    enough (Hfold : ∀ k, map_fold f b hit_tags !! k =
              match existing !! k, hit_tags !! k with
              | None, None => None
              | e, hv => Some (list_to_set (default [] e) ∪ incoming_term hv)
              end)
  end.
  { rewrite Hfold. by destruct (existing !! k), (hit_tags !! k). }
  clear k. apply (map_fold_weak_ind (fun r m => ∀ k, r !! k =
              match existing !! k, m !! k with
              | None, None => None
              | e, hv => Some (list_to_set (default [] e) ∪ incoming_term hv)
              end)).
  - intros k. rewrite lookup_fmap, lookup_empty.
    destruct (existing !! k); simpl; [|done]. f_equal. set_solver.
  - intros i x m r Hi IH k. destruct (decide (i = k)) as [->|Hne].
    + rewrite !lookup_insert_eq, IH, Hi.
      destruct (existing !! k); simpl; f_equal; set_solver.
    + by rewrite !lookup_insert_ne, IH.
Qed.

(** C4. [merge_repo_tags] is idempotent and order-independent, and per
    category its result is the deduplicated (and sorted) union of the
    existing terms and the incoming term: a category is present exactly when
    one of the two maps has it. *)
Theorem merge_repo_tags_idempotent_commutative (E : gmap string (list string))
    (h h1 h2 : gmap string string) :
  merge_repo_tags (merge_repo_tags E h) h = merge_repo_tags E h ∧
  merge_repo_tags (merge_repo_tags E h1) h2 = merge_repo_tags (merge_repo_tags E h2) h1 ∧
  ∀ k,
    (is_Some (merge_repo_tags E h !! k) ↔ is_Some (E !! k) ∨ is_Some (h !! k)) ∧
    (∀ x, x ∈ default [] (merge_repo_tags E h !! k) ↔
          x ∈ default [] (E !! k) ∨ h !! k = Some x) ∧
    NoDup (default [] (merge_repo_tags E h !! k)) ∧
    Sorted String.le (default [] (merge_repo_tags E h !! k)).
Proof.
  split; [|split].
  - apply map_eq. intros k. rewrite !merge_repo_tags_lookup.
    destruct (E !! k), (h !! k); simpl; rewrite ?list_to_set_sorted;
      try done; f_equal; f_equal; set_solver.
  - apply map_eq. intros k. rewrite !merge_repo_tags_lookup.
    destruct (E !! k), (h1 !! k), (h2 !! k); simpl; rewrite ?list_to_set_sorted;
      try done; f_equal; f_equal; set_solver.
  - intros k. rewrite merge_repo_tags_lookup.
    destruct (E !! k) as [l|] eqn:HE, (h !! k) as [v|] eqn:Hh; simpl.
    all: repeat split;
      try apply NoDup_sorted; try apply Sorted_sorted; try apply NoDup_nil_2;
      try apply Sorted_nil; eauto.
    all: try (intros [[? [=]]|[? [=]]]; fail).
    all: try (intros [? [=]]; fail).
    all: try (rewrite elem_of_sorted; set_solver).
    all: set_solver.
Qed.

(** ** Monotonic union in the merger *)

Lemma stored_topics_upsert (db : Db) (now : string) (query_id : Z) (repo_item : RepoItem)
    (hit_tags : gmap string string) (full_name : string) :
  stored_topics db full_name ⊆
  stored_topics (db_upsert_repo_and_hit db now query_id repo_item hit_tags) full_name.
Proof.
  unfold db_upsert_repo_and_hit.
  destruct (item_full_name repo_item) as [fn|]; [|done].
  destruct (truthy fn); simpl; [|done].
  unfold stored_topics; simpl.
  destruct (decide (fn = full_name)) as [->|Hne].
  - rewrite lookup_insert_eq.
    destruct (repos db !! full_name) as [row|]; simpl; [|set_solver].
    rewrite list_to_set_sorted. set_solver.
  - by rewrite lookup_insert_ne.
Qed.

Lemma stored_tags_upsert (db : Db) (now : string) (query_id : Z) (repo_item : RepoItem)
    (hit_tags : gmap string string) (full_name cat : string) :
  stored_tags db full_name cat ⊆
  stored_tags (db_upsert_repo_and_hit db now query_id repo_item hit_tags) full_name cat.
Proof.
  unfold db_upsert_repo_and_hit.
  destruct (item_full_name repo_item) as [fn|]; [|done].
  destruct (truthy fn); simpl; [|done].
  unfold stored_tags; simpl.
  destruct (decide (fn = full_name)) as [->|Hne].
  - rewrite lookup_insert_eq.
    destruct (repos db !! full_name) as [row|]; simpl; [|set_solver].
    rewrite merge_repo_tags_lookup.
    destruct (_load_json (merged_tags_json row) ∅ !! cat) as [l|], (hit_tags !! cat);
      simpl; rewrite ?list_to_set_sorted; set_solver.
  - by rewrite lookup_insert_ne.
Qed.

(** C2. For every repository and every finite sequence of
    [db_upsert_repo_and_hit] calls (whatever their arguments), the stored
    topic set and, for each category, the stored [merged_tags] term set after
    the sequence contain the sets held before it. *)
Theorem upserts_never_shrink (db : Db) (calls : list UpsertCall) (full_name : string) :
  stored_topics db full_name ⊆ stored_topics (run_upserts db calls) full_name ∧
  ∀ cat, stored_tags db full_name cat ⊆ stored_tags (run_upserts db calls) full_name cat.
Proof.
  revert db. induction calls as [|c calls IH]; intros db; [done|].
  unfold run_upserts in *. cbn [foldl].
  destruct (IH (db_upsert_repo_and_hit db (uc_now c) (uc_query_id c) (uc_repo_item c)
                  (uc_hit_tags c))) as [Htopics Htags].
  split.
  - etrans; [apply stored_topics_upsert|exact Htopics].
  - intros cat. etrans; [apply stored_tags_upsert|apply Htags].
Qed.

(** ** Weighted draws *)

Lemma Qle_bool_false (x y : Q) : Qle_bool x y = false → (y < x)%Q.
Proof.
  intros H. apply Qnot_le_lt. intros Hle. apply Qle_bool_iff in Hle. congruence.
Qed.

(** The scan never stops at a row of weight zero once the threshold is
    above the running sum. *)
Lemma pick_scan_nonzero (rows : list KeywordRow) (upto rnum : Q) (row : KeywordRow) :
  (upto < rnum)%Q → pick_scan rows upto rnum = Some row → ¬ (weight row == 0)%Q.
Proof.
  revert upto. induction rows as [|r rows IH]; intros upto Hlt; [done|].
  cbn [pick_scan]. destruct (Qle_bool rnum (upto + weight r)) eqn:Hle.
  - intros [= <-] Hz. apply Qle_bool_iff in Hle. rewrite Hz in Hle. lra.
  - apply IH. by apply Qle_bool_false.
Qed.

Lemma pick_scan_None (rows : list KeywordRow) (upto rnum : Q) :
  (upto < rnum)%Q → pick_scan rows upto rnum = None →
  (foldl Qplus upto (weight <$> rows) < rnum)%Q.
Proof.
  revert upto. induction rows as [|r rows IH]; intros upto Hlt; cbn [pick_scan]; [done|].
  destruct (Qle_bool rnum (upto + weight r)) eqn:Hle; [done|].
  intros H. apply IH; [by apply Qle_bool_false|done].
Qed.

Lemma pick_scan_elem_of (rows : list KeywordRow) (upto rnum : Q) (row : KeywordRow) :
  pick_scan rows upto rnum = Some row → row ∈ rows.
Proof.
  revert upto. induction rows as [|r rows IH]; intros upto; cbn [pick_scan]; [done|].
  destruct (Qle_bool _ _).
  - intros [= <-]. left.
  - intros ?. right. eauto.
Qed.

(** For a draw strictly between 0 and 1 and a positive total, [pick]
    returns a row and its weight is not zero. *)
Lemma pick_positive_draw (rows : list KeywordRow) (rng : Rng) :
  rows ≠ [] →
  (0 < sum_weights (weight <$> rows))%Q →
  (0 < rng_floats rng (rng_pos rng))%Q → (rng_floats rng (rng_pos rng) < 1)%Q →
  ∃ row, pick rows rng = Ok (row, rng_advance rng) ∧ row ∈ rows ∧ ¬ (weight row == 0)%Q.
Proof.
  intros Hne Htotal Hu0 Hu1. unfold pick.
  destruct rows as [|r0 rows0] eqn:Hrows; [done|]. rewrite <- Hrows in *.
  destruct (Qle_bool (sum_weights (weight <$> rows)) 0) eqn:Hle.
  { apply Qle_bool_iff in Hle. lra. }
  cbn [rng_random].
  set (u := rng_floats rng (rng_pos rng)) in *.
  set (total := sum_weights (weight <$> rows)) in *.
  assert (Hr0 : (0 < u * total)%Q) by nra.
  assert (Hr1 : (u * total < total)%Q) by nra.
  destruct (pick_scan rows 0 (u * total)) as [row|] eqn:Hscan.
  - exists row. split; [done|]. split; [by eapply pick_scan_elem_of|].
    by apply (pick_scan_nonzero rows 0 (u * total)).
  - apply pick_scan_None in Hscan; [|done]. fold (sum_weights (weight <$> rows)) in Hscan.
    fold total in Hscan. lra.
Qed.

(** With a total weight that is not positive, [pick] is [rng.choice] over
    all the rows: the row at the drawn index, whatever the weights. *)
Lemma pick_uniform_fallback (rows : list KeywordRow) (rng : Rng) :
  rows ≠ [] →
  (sum_weights (weight <$> rows) <= 0)%Q →
  pick rows rng = rng_choice rng rows ∧
  ∃ row, rows !! (rng_ints rng (rng_pos rng) mod length rows)%nat = Some row ∧
         pick rows rng = Ok (row, rng_advance rng).
Proof.
  intros Hne Htotal.
  assert (Hpick : pick rows rng = rng_choice rng rows).
  { unfold pick. destruct rows; [done|]. apply Qle_bool_iff in Htotal. by rewrite Htotal. }
  split; [done|]. rewrite Hpick. unfold rng_choice.
  destruct (rows !! _) as [row|] eqn:Hrow; [eauto|].
  apply lookup_ge_None in Hrow. destruct rows; [done|].
  pose proof (Nat.mod_upper_bound (rng_ints rng (rng_pos rng)) (length (k :: rows))).
  simpl in *. lia.
Qed.

(** C5, evaluated at the draw [0.0]. The total weight is positive and a row
    of positive weight exists, yet [pick] returns the leading row, whose
    weight is zero: the scan compares with [upto >= rnum] and [rnum] is 0. *)
Theorem pick_zero_draw_returns_zero_weight_row :
  (0 < sum_weights (weight <$> rows_zero_first))%Q ∧
  (∃ row, row ∈ rows_zero_first ∧ (0 < weight row)%Q) ∧
  (0 <= rng_floats rng_zero (rng_pos rng_zero) < 1)%Q ∧
  ∃ row, pick rows_zero_first rng_zero = Ok (row, rng_advance rng_zero) ∧
         weight row = 0%Q ∧ term row = "acoustics".
Proof.
  split; [by vm_compute|]. split.
  { exists (mkKeywordRow 2 "domain" "cfd" 1). split; [|by vm_compute].
    unfold rows_zero_first. set_solver. }
  split; [by vm_compute|].
  by exists (mkKeywordRow 1 "domain" "acoustics" 0).
Qed.

(** ** Candidate scoring *)


(** One call of [db_add_candidate] touches the row of the normalised term
    only: it adds [score_inc] and one occurrence to it, or creates it. *)
Lemma db_add_candidate_lookup (db : Db) (now t field repo : string) (inc : Q) (key : string) :
  keyword_candidates (db_add_candidate db now t field repo inc) !! key =
  if decide (normalize_term t = key) then
    Some (match keyword_candidates db !! key with
          | Some row =>
              mkCandidateRow (suggested_category row) (score row + inc)%Q
                (occurrences row + 1) (cand_first_seen_at row) now
                (Some (let sources := _load_json (sources_json row) [] in
                       if (length sources <? 30)%nat
                       then sources ++ [mkSource repo field key] else sources))
                (cand_status row)
          | None => mkCandidateRow None inc 1 now now (Some [mkSource repo field key]) "pending"
          end)
  else keyword_candidates db !! key.
Proof.
  unfold db_add_candidate. case_decide as Hkey.
  - subst key. destruct (keyword_candidates db !! normalize_term t); simpl;
      by rewrite lookup_insert_eq.
  - destruct (keyword_candidates db !! normalize_term t); simpl;
      by rewrite lookup_insert_ne.
Qed.

(** The two calls of [db_add_candidate] in [run_extract_candidates] are
    the observations of the two fields. *)
Lemma add_candidate_at_observe (utcnow_iso : nat → string) (st : Db * nat)
    (t full_name : string) (f : Field) :
  add_candidate_at utcnow_iso st t (field_name f) full_name (field_score f)
  = (observe st.1 (mkObservation t f full_name (utcnow_iso st.2)), S st.2).
Proof. done. Qed.



(** ** Facts on the string primitives *)

Lemma app_cons (c : ascii) (a b : string) : String c a +:+ b = String c (a +:+ b).
Proof. done. Qed.

Lemma app_empty_l (b : string) : "" +:+ b = b.
Proof. done. Qed.

Lemma app_assoc_s (a b c : string) : (a +:+ b) +:+ c = a +:+ (b +:+ c).
Proof. induction a as [|x a IH]; [done|]. by rewrite !app_cons, IH. Qed.

Lemma is_space_lower (c : ascii) : is_space (lower_ascii c) = is_space c.
Proof. by destruct c as [[] [] [] [] [] [] [] []]. Qed.

Lemma lower_ascii_idem (c : ascii) : lower_ascii (lower_ascii c) = lower_ascii c.
Proof. by destruct c as [[] [] [] [] [] [] [] []]. Qed.

Lemma lower_app (a b : string) : lower (a +:+ b) = lower a +:+ lower b.
Proof. induction a as [|c a IH]; [done|]. rewrite app_cons. cbn [lower]. by rewrite IH. Qed.

Lemma lower_idem (s : string) : lower (lower s) = lower s.
Proof. induction s as [|c s IH]; [done|]. cbn [lower]. by rewrite lower_ascii_idem, IH. Qed.

Lemma lower_fixed_app (a b : string) :
  lower (a +:+ b) = a +:+ b → lower a = a ∧ lower b = b.
Proof.
  induction a as [|c a IH]; [done|]. rewrite app_cons. cbn [lower].
  intros [= Hc Hrest]. destruct (IH Hrest) as [-> ->]. by rewrite Hc.
Qed.

Lemma lstrip_lower (s : string) : lstrip (lower s) = lower (lstrip s).
Proof.
  induction s as [|c s IH]; [done|]. cbn [lower lstrip]. rewrite is_space_lower.
  by destruct (is_space c).
Qed.

Lemma lower_empty (s : string) : lower s = "" ↔ s = "".
Proof. by destruct s. Qed.

Lemma rstrip_lower (s : string) : rstrip (lower s) = lower (rstrip s).
Proof.
  induction s as [|c s IH]; [done|]. cbn [lower rstrip]. rewrite IH, is_space_lower.
  destruct (rstrip s) as [|d r]; cbn [lower]; by destruct (is_space c).
Qed.

Lemma strip_lower (s : string) : strip (lower s) = lower (strip s).
Proof. unfold strip. by rewrite lstrip_lower, rstrip_lower. Qed.

Lemma lstrip_idem (s : string) : lstrip (lstrip s) = lstrip s.
Proof.
  induction s as [|c s IH]; [done|]. cbn [lstrip].
  destruct (is_space c) eqn:Hc; [done|]. cbn [lstrip]. by rewrite Hc.
Qed.

Lemma rstrip_idem (s : string) : rstrip (rstrip s) = rstrip s.
Proof.
  induction s as [|c s IH]; [done|]. cbn [rstrip].
  destruct (rstrip s) as [|d r] eqn:Hr.
  - destruct (is_space c) eqn:Hc; [done|]. cbn [rstrip]. by rewrite Hc.
  - cbn [rstrip] in *. by rewrite IH.
Qed.

Lemma lstrip_rstrip (s : string) : lstrip (rstrip s) = rstrip (lstrip s).
Proof.
  induction s as [|c s IH]; [done|]. cbn [lstrip rstrip].
  destruct (is_space c) eqn:Hc.
  - rewrite <- IH. destruct (rstrip s) as [|d r]; [done|]. cbn [lstrip]. by rewrite Hc.
  - cbn [rstrip]. destruct (rstrip s) as [|d r]; rewrite ?Hc; cbn [lstrip]; by rewrite Hc.
Qed.

Lemma strip_idem (s : string) : strip (strip s) = strip s.
Proof.
  unfold strip. by rewrite (lstrip_rstrip (lstrip s)), lstrip_idem, rstrip_idem.
Qed.

Lemma normalize_term_idem (s : string) :
  normalize_term (normalize_term s) = normalize_term s.
Proof. unfold normalize_term. by rewrite strip_lower, strip_idem, lower_idem. Qed.

(** A normalised term is fixed by each of the three steps. *)
Lemma normalize_term_fixed (t : string) :
  normalize_term t = t → lower t = t ∧ lstrip t = t ∧ rstrip t = t.
Proof.
  unfold normalize_term. intros Ht.
  assert (Hl : lower t = t) by (by rewrite <- Ht, lower_idem).
  assert (Hs : strip t = t) by (by rewrite <- Ht at 1; rewrite strip_lower, strip_idem).
  split; [done|]. unfold strip in Hs. split.
  - rewrite <- Hs at 1. by rewrite <- lstrip_rstrip, lstrip_idem, lstrip_rstrip.
  - rewrite <- Hs at 1. by rewrite rstrip_idem.
Qed.

Lemma lstrip_length (s : string) : (String.length (lstrip s) ≤ String.length s)%nat.
Proof.
  induction s as [|c s IH]; [done|]. cbn [lstrip].
  destruct (is_space c); cbn [String.length]; lia.
Qed.

Lemma lstrip_fixed_head (t : string) :
  lstrip t = t → t ≠ "" → ∃ c t', t = String c t' ∧ is_space c = false.
Proof.
  destruct t as [|c t']; [done|]. intros Ht _. exists c, t'. split; [done|].
  cbn [lstrip] in Ht. destruct (is_space c); [|done].
  pose proof (lstrip_length t') as Hlen. rewrite Ht in Hlen. cbn [String.length] in Hlen. lia.
Qed.

Lemma lstrip_suffix (s : string) : ∃ a, s = a +:+ lstrip s.
Proof.
  induction s as [|c s [a IH]]; [by exists ""|]. cbn [lstrip].
  destruct (is_space c); [|by exists ""].
  exists (String c a). by rewrite app_cons, <- IH.
Qed.

Lemma rstrip_prefix (s : string) : ∃ b, s = rstrip s +:+ b.
Proof.
  induction s as [|c s [b IH]]; [by exists ""|]. cbn [rstrip].
  destruct (rstrip s) as [|d r] eqn:Hr.
  - destruct (is_space c).
    + by exists (String c s).
    + exists b. rewrite app_cons. by rewrite app_empty_l in IH; rewrite <- IH.
  - exists b. by rewrite app_cons, <- IH.
Qed.

Lemma lstrip_app_head (p : string) (c : ascii) (w : string) :
  is_space c = false → ∃ p', lstrip (p +:+ String c w) = p' +:+ String c w.
Proof.
  intros Hc. induction p as [|d p [p' IH]].
  - exists "". rewrite !app_empty_l. cbn [lstrip]. by rewrite Hc.
  - rewrite app_cons. cbn [lstrip]. destruct (is_space d); [by exists p'|].
    exists (String d p). by rewrite app_cons.
Qed.

Lemma rstrip_app_keep (a y : string) : rstrip y ≠ "" → rstrip (a +:+ y) = a +:+ rstrip y.
Proof.
  intros Hy. induction a as [|c a IH]; [done|].
  rewrite !app_cons. cbn [rstrip]. rewrite IH.
  destruct (a +:+ rstrip y) as [|d r] eqn:Happ; [|done].
  destruct a; [by rewrite app_empty_l in Happ|by rewrite app_cons in Happ].
Qed.

Lemma rstrip_cons (c : ascii) (s : string) :
  rstrip (String c s) =
  match rstrip s with
  | "" => if is_space c then "" else String c ""
  | r => String c r
  end.
Proof. done. Qed.

Lemma rstrip_fixed_app (x q : string) :
  rstrip x = x → x ≠ "" → ∃ q', rstrip (x +:+ q) = x +:+ q'.
Proof.
  induction x as [|c x IH]; [done|]. intros Hx _. rewrite app_cons.
  rewrite rstrip_cons in Hx. rewrite rstrip_cons.
  destruct x as [|d x].
  - rewrite app_empty_l. exists (rstrip q). cbn [rstrip] in Hx.
    destruct (is_space c); [done|]. rewrite app_cons, app_empty_l. by destruct (rstrip q).
  - destruct (rstrip (String d x)) as [|e r] eqn:Hr.
    { by destruct (is_space c). }
    destruct IH as [q' IH]; [congruence|done|].
    rewrite IH. exists q'. by rewrite !app_cons.
Qed.

Lemma is_prefix_spec (s t : string) : is_prefix s t = true ↔ ∃ q, t = s +:+ q.
Proof.
  revert t. induction s as [|a s IH]; intros t.
  - split; [by exists t|done].
  - destruct t as [|b t]; cbn [is_prefix].
    + split; [done|]. by intros [q [=]].
    + rewrite andb_true_iff, bool_decide_eq_true, IH. split.
      * intros [-> [q ->]]. by exists q.
      * intros [q Hq]. rewrite app_cons in Hq. injection Hq as -> ->. eauto.
Qed.

Lemma is_infix_spec (s t : string) :
  is_infix s t = true ↔ ∃ p q, t = p +:+ s +:+ q.
Proof.
  induction t as [|b t IH].
  - cbn [is_infix]. rewrite orb_false_r, is_prefix_spec. split.
    + intros [q Hq]. by exists "", q.
    + intros [p [q Hq]]. destruct p; [by exists q|done].
  - cbn [is_infix]. rewrite orb_true_iff, is_prefix_spec, IH. split.
    + intros [[q Hq]|[p [q ->]]]; [by exists "", q|by exists (String b p), q].
    + intros [p [q Hq]]. destruct p as [|c p].
      * left. by exists q.
      * right. rewrite app_cons in Hq. injection Hq as -> ->. eauto.
Qed.

(** A normalised, non-empty token that occurs in a keyword term still
    occurs in the normalised keyword term. *)
Lemma infix_in_normalized (t k : string) :
  normalize_term t = t → t ≠ "" → is_infix t k = true →
  is_infix t (normalize_term k) = true.
Proof.
  intros Ht Hne [p [q ->]]%is_infix_spec.
  destruct (normalize_term_fixed t Ht) as (Hl & Hls & Hrs).
  destruct (lstrip_fixed_head t Hls Hne) as (c & t' & Heq & Hc).
  apply is_infix_spec. unfold normalize_term, strip.
  destruct (rstrip_fixed_app t q Hrs Hne) as [q' Hq'].
  assert (Hnonempty : rstrip (t +:+ q) ≠ "").
  { rewrite Hq'. rewrite Heq, app_cons. done. }
  destruct (lstrip_app_head p c (t' +:+ q) Hc) as [p' Hp'].
  rewrite <- app_cons, <- Heq in Hp'. rewrite Hp'.
  rewrite rstrip_app_keep by done. rewrite Hq', !lower_app, Hl. eauto.
Qed.

(** A keyword term that occurs in a normalised token still occurs in it
    once normalised. *)
Lemma normalized_infix_of (t k : string) :
  normalize_term t = t → is_infix k t = true → is_infix (normalize_term k) t = true.
Proof.
  intros Ht [p [q Heq]]%is_infix_spec.
  destruct (normalize_term_fixed t Ht) as (Hl & _ & _).
  rewrite Heq in Hl. apply lower_fixed_app in Hl as [_ [Hk _]%lower_fixed_app].
  apply is_infix_spec. unfold normalize_term. rewrite <- strip_lower, Hk. unfold strip.
  destruct (lstrip_suffix k) as [a Ha]. destruct (rstrip_prefix (lstrip k)) as [b Hb].
  exists (p +:+ a), (b +:+ q). rewrite Heq.
  rewrite Ha at 1. rewrite Hb at 1. by rewrite !app_assoc_s.
Qed.

(** ** The vocabulary filter of the candidate miner *)

Lemma truthy_true (s : string) : truthy s = true ↔ s ≠ "".
Proof. unfold truthy. by rewrite negb_true_iff, bool_decide_eq_false. Qed.

Lemma truthy_false (s : string) : truthy s = false ↔ s = "".
Proof. unfold truthy. by rewrite negb_false_iff, bool_decide_eq_true. Qed.

(** The filter depends on its argument through the normalised term only,
    and it skips every term that equals, occurs in or contains a keyword
    term whose normalised form is in the set and is not empty. *)
Lemma should_skip_related (tok k : string) (existing : gset string) :
  normalize_term k ∈ existing →
  normalize_term k ≠ "" →
  normalize_term tok = k ∨
  is_infix (normalize_term tok) k = true ∨
  is_infix k (normalize_term tok) = true →
  should_skip_candidate_term tok existing = true.
Proof.
  intros Hin Hne Hrel. unfold should_skip_candidate_term.
  set (t := normalize_term tok) in *.
  assert (Ht : normalize_term t = t) by apply normalize_term_idem.
  destruct (truthy t) eqn:Htruthy; [|done]. cbn [negb].
  apply truthy_true in Htruthy.
  case_bool_decide as Hmem; [done|].
  apply existsb_exists. exists (normalize_term k). split.
  { apply list_elem_of_In, elem_of_elements, Hin. }
  rewrite (proj2 (truthy_true _) Hne). cbn [negb]. apply orb_true_iff.
  destruct Hrel as [Heq|[Hsub|Hsup]].
  - exfalso. apply Hmem. rewrite <- Heq in Hin. by rewrite Ht in Hin.
  - right. by apply infix_in_normalized.
  - left. by apply normalized_infix_of.
Qed.

Lemma existing_keyword_terms_of_elem (db : Db) (row : KeywordRec) :
  row ∈ keywords db → kw_term row ≠ "" →
  normalize_term (kw_term row) ∈ existing_keyword_terms_of db.
Proof.
  intros Hin Hne. unfold existing_keyword_terms_of.
  apply elem_of_list_to_set, list_elem_of_fmap_2, list_elem_of_filter.
  split; [by apply truthy_true|]. by apply list_elem_of_fmap_2.
Qed.

Section ExtractFrame.

Variable utcnow_iso : nat -> string.
Variable existing : gset string.
Variable key : string.

(** Every term that would be stored under [key] is skipped by the filter. *)
Hypothesis key_skipped :
  ∀ tok, normalize_term tok = key → should_skip_candidate_term tok existing = true.

Lemma add_candidate_at_other (st : Db * nat) (tok field full_name : string) (inc : Q) :
  should_skip_candidate_term tok existing = false →
  keyword_candidates (add_candidate_at utcnow_iso st tok field full_name inc).1 !! key
  = keyword_candidates st.1 !! key.
Proof.
  intros Hskip. unfold add_candidate_at. cbn [fst].
  rewrite db_add_candidate_lookup. case_decide as Hk; [|done].
  apply key_skipped in Hk. congruence.
Qed.

Lemma scan_description_frame (full_name desc : string) (st : Db * nat) :
  keyword_candidates (scan_description utcnow_iso existing full_name desc st).1 !! key
  = keyword_candidates st.1 !! key.
Proof.
  unfold scan_description. revert st.
  induction (extract_candidate_terms desc) as [|tok toks IH]; intros st; [done|].
  cbn [foldl]. rewrite IH. case_bool_decide; [done|].
  destruct (should_skip_candidate_term tok existing) eqn:Hskip; [done|].
  by apply add_candidate_at_other.
Qed.

Lemma scan_topics_frame (full_name : string) (topics : list string) (st : Db * nat) :
  keyword_candidates (scan_topics utcnow_iso existing full_name topics st).1 !! key
  = keyword_candidates st.1 !! key.
Proof.
  unfold scan_topics. revert st.
  induction topics as [|topic topics IH]; intros st; [done|].
  cbn [foldl]. rewrite IH. cbn zeta.
  destruct (negb (truthy (normalize_term topic)) || _); [done|].
  destruct (should_skip_candidate_term (normalize_term topic) existing) eqn:Hskip; [done|].
  by apply add_candidate_at_other.
Qed.

Lemma extract_from_rows_frame (rows : list (string * RepoRow)) (st : Db * nat) :
  keyword_candidates (extract_from_rows utcnow_iso existing rows st).1 !! key
  = keyword_candidates st.1 !! key.
Proof.
  unfold extract_from_rows. revert st.
  induction rows as [|[full_name row] rows IH]; intros st; [done|].
  cbn [foldl]. rewrite IH. by rewrite scan_topics_frame, scan_description_frame.
Qed.

End ExtractFrame.

(** C8, as the code has it. During candidate extraction, a token that
    equals, is a substring of, or contains as a substring a keyword term
    (active or not) that is not empty once normalised is skipped: the
    [keyword_candidates] row of the token is neither created nor updated. *)
Theorem related_token_never_recorded (utcnow_iso : nat -> string) (db : Db)
    (limit_repos : Z) (kw : KeywordRec) (t : string) :
  kw ∈ keywords db →
  normalize_term (kw_term kw) ≠ "" →
  t = kw_term kw ∨ is_infix t (kw_term kw) = true ∨ is_infix (kw_term kw) t = true →
  keyword_candidates (run_extract_candidates utcnow_iso db limit_repos) !! t
  = keyword_candidates db !! t.
Proof.
  intros Hin Hne Hrel. unfold run_extract_candidates.
  rewrite extract_from_rows_frame; [done|].
  intros tok Htok.
  apply (should_skip_related tok (kw_term kw)); [|done|rewrite Htok; tauto].
  apply existing_keyword_terms_of_elem; [done|]. by intros Hk; rewrite Hk in Hne.
Qed.

(** ** The crawl loop *)

Lemma select_query_by_id_of_text (db : Db) (query : string) (row : QueryRow) :
  NoDup (q_id <$> queries db) →
  select_query_by_text db query = Some row →
  select_query_by_id db (q_id row) = Some row.
Proof.
  intros Hnd [Hin _]%find_elem_of. by apply find_by_key_NoDup.
Qed.

Lemma db_insert_query_if_new_cached (db : Db) (query : string) (recipe : Recipe)
    (row : QueryRow) :
  select_query_by_text db query = Some row →
  db_insert_query_if_new db query recipe = Ok (db, q_id row).
Proof. intros Hrow. unfold db_insert_query_if_new. by rewrite !Hrow. Qed.

(** C3. In an iteration of the [run_harvest] loop in which the drawn query
    string (after the qualifiers) maps to a row whose [executed_at] is set,
    [attempts] grows by one and nothing else changes: no search request is
    issued, no step is counted and the database is left as it was; the loop
    goes on from there. *)
Theorem cached_query_counted_not_resent
    (search_repositories : list Request → Request → Reply) (utcnow_iso : nat → string)
    (p : HarvestParams) (s : Harvest) (query query' : string)
    (hit_tags : gmap string string) (recipe : Recipe) (rng' : Rng)
    (row : QueryRow) (ts : string) :
  make_random_query (w_db (h_world s)) (h_rng s) = Ok (query, hit_tags, recipe, rng') →
  apply_repo_filters_to_query query (min_stars p) (max_stars p) (min_forks p) (max_forks p)
    (min_watchers p) (max_watchers p) (min_topics p) (max_topics p) = Ok query' →
  NoDup (q_id <$> queries (w_db (h_world s))) →
  select_query_by_text (w_db (h_world s)) query' = Some row →
  executed_at row = Some ts →
  ts ≠ "" →
  ∃ s',
    harvest_iteration search_repositories utcnow_iso p s = Ok s' ∧
    attempts s' = attempts s + 1 ∧
    w_log (h_world s') = w_log (h_world s) ∧
    executed_steps s' = executed_steps s ∧
    w_db (h_world s') = w_db (h_world s) ∧
    ∀ budget, loop_condition p s = true →
      harvest_loop search_repositories utcnow_iso p (S budget) s
      = harvest_loop search_repositories utcnow_iso p budget s'.
Proof.
  intros Hdraw Hfilter Hnd Hrow Hexec Hts.
  set (s' := mkHarvest (h_world s) rng' (executed_steps s) (attempts s + 1)).
  assert (Hiter : harvest_iteration search_repositories utcnow_iso p s = Ok s').
  { unfold harvest_iteration. rewrite Hdraw. cbn. rewrite Hfilter. cbn.
    rewrite (db_insert_query_if_new_cached _ _ _ row Hrow). cbn.
    unfold db_query_is_executed.
    rewrite (select_query_by_id_of_text _ _ _ Hnd Hrow), Hexec.
    rewrite (proj2 (truthy_true ts) Hts). unfold s'. by destruct (h_world s). }
  exists s'. repeat split; try done.
  intros budget Hcond. cbn [harvest_loop]. by rewrite Hcond, Hiter.
Qed.

Lemma harvest_iteration_attempts
    (search_repositories : list Request → Request → Reply) (utcnow_iso : nat → string)
    (p : HarvestParams) (s s' : Harvest) :
  harvest_iteration search_repositories utcnow_iso p s = Ok s' →
  attempts s' = attempts s + 1.
Proof.
  unfold harvest_iteration.
  destruct (make_random_query _ _) as [[[[query hit_tags] recipe] rng]|]; [|done]. cbn.
  destruct (apply_repo_filters_to_query _ _ _ _ _ _ _ _ _) as [query'|]; [|done]. cbn.
  destruct (db_insert_query_if_new _ _ _) as [[db qid]|]; [|done]. cbn.
  destruct (db_query_is_executed db qid); [by intros [= <-]|].
  destruct (paging _ _ _ _ _ _ _ _ _); by intros [= <-].
Qed.

(** The budget given to [harvest_loop] never cuts the loop short: when the
    loop returns, its condition is false. *)
Lemma harvest_loop_exits
    (search_repositories : list Request → Request → Reply) (utcnow_iso : nat → string)
    (p : HarvestParams) (budget : nat) (s s' : Harvest) :
  steps p * max_query_attempts p - attempts s ≤ Z.of_nat budget →
  harvest_loop search_repositories utcnow_iso p budget s = Ok s' →
  loop_condition p s' = false.
Proof.
  revert s. induction budget as [|budget IH]; intros s Hbudget; cbn [harvest_loop].
  - intros [= <-]. unfold loop_condition. apply andb_false_iff. right.
    apply bool_decide_eq_false. lia.
  - destruct (loop_condition p s) eqn:Hcond; [|by intros [= <-]].
    destruct (harvest_iteration _ _ p s) as [s1|] eqn:Hiter; [|done]. cbn.
    apply IH. apply harvest_iteration_attempts in Hiter. lia.
Qed.

Lemma select_after_mark (db : Db) (now : string) (qid status : Z)
    (total_count : option Z) (error : option string) (row : QueryRow) :
  select_query_by_id db qid = Some row →
  select_query_by_id (db_mark_query_executed db now qid status total_count error) qid
  = Some (mkQueryRow (q_id row) (q_query row) (recipe_json row)
                     (Some now) (Some status) total_count error).
Proof.
  unfold select_query_by_id, db_mark_query_executed. cbn [queries set_queries].
  induction (queries db) as [|r rows IH]; [done|]. cbn [find fmap list_fmap].
  case_bool_decide as Hid.
  - intros [= ->]. cbn [q_id]. by rewrite bool_decide_eq_true_2.
  - rewrite bool_decide_eq_false_2 by done. apply IH.
Qed.

(** The paging loop of a query whose first page is answered with a status
    other than 200: one request, the failure recorded, no page merged. *)
Lemma paging_first_page_fails
    (search_repositories : list Request → Request → Reply) (utcnow_iso : nat → string)
    (p : HarvestParams) (query : string) (qid : Z) (hit_tags : gmap string string)
    (w : World) (resp : Response) :
  0 < pages_per_query p →
  search_repositories (w_log w) (mkRequest query (per_page p) 1 (p_sort p) (p_order p))
  = Responded resp →
  status_code resp ≠ 200 →
  paging search_repositories utcnow_iso p query qid hit_tags
         (seqZ 1 (pages_per_query p)) w None
  = Finished
      (mark_query_executed utcnow_iso
         (mkWorld (w_db w)
                  (w_log w ++ [mkRequest query (per_page p) 1 (p_sort p) (p_order p)])
                  (w_ticks w))
         qid (status_code resp) None (Some (take_prefix 5000 (text resp))))
      None.
Proof.
  intros Hpages Hreply Hstatus. rewrite seqZ_cons by done. cbn [paging].
  rewrite Hreply. by rewrite bool_decide_eq_false_2.
Qed.

(** What the step leaves in the row of such a query: the unconditional
    [db_mark_query_executed(conn, qid, 200, total_count, None)] after the
    loop runs after the [break] too and replaces the recorded failure. *)
Lemma failed_first_page_ends_as_success
    (search_repositories : list Request → Request → Reply) (utcnow_iso : nat → string)
    (p : HarvestParams) (s : Harvest) (query query' : string)
    (hit_tags : gmap string string) (recipe : Recipe) (rng' : Rng)
    (db : Db) (qid : Z) (row : QueryRow) (resp : Response) :
  make_random_query (w_db (h_world s)) (h_rng s) = Ok (query, hit_tags, recipe, rng') →
  apply_repo_filters_to_query query (min_stars p) (max_stars p) (min_forks p) (max_forks p)
    (min_watchers p) (max_watchers p) (min_topics p) (max_topics p) = Ok query' →
  db_insert_query_if_new (w_db (h_world s)) query' recipe = Ok (db, qid) →
  select_query_by_id db qid = Some row →
  db_query_is_executed db qid = false →
  0 < pages_per_query p →
  search_repositories (w_log (h_world s))
    (mkRequest query' (per_page p) 1 (p_sort p) (p_order p)) = Responded resp →
  status_code resp ≠ 200 →
  ∃ s',
    harvest_iteration search_repositories utcnow_iso p s = Ok s' ∧
    select_query_by_id (w_db (h_world s')) qid
    = Some (mkQueryRow (q_id row) (q_query row) (recipe_json row)
              (Some (utcnow_iso (S (w_ticks (h_world s))))) (Some 200) None None) ∧
    repos (w_db (h_world s')) = repos db ∧
    repo_hits (w_db (h_world s')) = repo_hits db ∧
    w_log (h_world s')
    = w_log (h_world s) ++ [mkRequest query' (per_page p) 1 (p_sort p) (p_order p)] ∧
    executed_steps s' = executed_steps s + 1.
Proof.
  intros Hdraw Hfilter Hinsert Hrow Hnew Hpages Hreply Hstatus.
  unfold harvest_iteration. rewrite Hdraw. cbn. rewrite Hfilter. cbn.
  rewrite Hinsert. cbn. rewrite Hnew.
  rewrite (paging_first_page_fails _ _ _ _ _ _ _ resp); [|done..].
  eexists. split; [done|].
  cbn [h_world executed_steps]. unfold mark_query_executed. cbn [w_db w_log w_ticks].
  split; [|done].
  by rewrite (select_after_mark _ _ _ _ _ _ _ (select_after_mark _ _ _ _ _ _ _ Hrow)).
Qed.

(** C1, evaluated: one harvest step over the seed vocabulary against an
    upstream that answers page 1 with HTTP 403. The query row ends with
    [executed_at] set and no repository merged, but with [last_status = 200]
    and [last_error] NULL: the 403 and the response body written before the
    [break] are overwritten, and the step is counted as executed. *)
Theorem harvest_403_recorded_as_200 :
  match run_harvest client_403 sample_clock params_one_step db_seed rng_zero with
  | Ok h =>
      (fun r => (q_query r, executed_at r, last_status r, last_total_count r, last_error r))
        <$> queries (w_db (h_world h))
      = [("cfd fem solver", Some "2026-01-01T00:00:00Z", Some 200, None, None)] ∧
      w_log (h_world h) = [mkRequest "cfd fem solver" 50 1 "updated" "desc"] ∧
      repos (w_db (h_world h)) = ∅ ∧
      repo_hits (w_db (h_world h)) = [] ∧
      executed_steps h = 1 ∧ attempts h = 1
  | Raise _ => False
  end.
Proof. vm_compute. done. Qed.

(** ** The properties at sample inputs *)

(** C9 at [db_cached]: inserting "cfd fem solver" again returns id 1 and
    changes nothing. *)
Lemma db_insert_query_if_new_existing_witness :
  db_insert_query_if_new db_cached "cfd fem solver" (mkRecipe "DI" [] None)
  = Ok (db_cached, 1).
Proof.
  apply (db_insert_query_if_new_existing db_cached "cfd fem solver" (mkRecipe "DI" [] None)
           (mkQueryRow 1 "cfd fem solver" (mkRecipe "DMI" [] None)
                       (Some "2026-01-01T00:00:00Z") (Some 200) (Some 0) None)).
  - apply NoDup_singleton.
  - left.
  - reflexivity.
Defined.

(** C10 at a record without [full_name]. *)
Lemma db_upsert_repo_and_hit_without_full_name_witness :
  db_upsert_repo_and_hit db_seed "2026-01-01T00:00:00Z" 1 item_without_name
                         {["domain" := "cfd"]} = db_seed.
Proof.
  apply (db_upsert_repo_and_hit_without_full_name db_seed "2026-01-01T00:00:00Z" 1
           item_without_name {["domain" := "cfd"]}).
  left. reflexivity.
Defined.


(** C8 at a vocabulary holding "fem" and a repository whose topic is
    "xfem": no candidate row appears for "xfem". *)
Lemma related_token_never_recorded_witness :
  keyword_candidates (run_extract_candidates sample_clock db_fem_topic 10) !! "xfem"
  = keyword_candidates db_fem_topic !! "xfem".
Proof.
  apply (related_token_never_recorded sample_clock db_fem_topic 10
           (active_keyword 2 "method" "fem" 1) "xfem").
  - left.
  - vm_compute. discriminate.
  - right. right. reflexivity.
Defined.

(** C8 as stated fails on an empty keyword term: the empty term occurs in
    every token, the filter passes over it, and the token "mesh" gets its
    candidate row. *)
Lemma empty_keyword_term_does_not_block :
  empty_keyword ∈ keywords db_empty_keyword ∧
  kw_status empty_keyword = "active" ∧
  is_infix (kw_term empty_keyword) "mesh" = true ∧
  keyword_candidates db_empty_keyword !! "mesh" = None ∧
  keyword_candidates (run_extract_candidates sample_clock db_empty_keyword 10) !! "mesh"
  = Some (mkCandidateRow None 1 1 "2026-01-01T00:00:00Z" "2026-01-01T00:00:00Z"
                         (Some [mkSource "a/b" "topic" "mesh"]) "pending").
Proof.
  split; [left|]. split; [reflexivity|]. split; [reflexivity|].
  split; [reflexivity|]. vm_compute. reflexivity.
Qed.

(** C3 at [db_cached]: the generator draws "cfd fem solver", which is
    cached; the iteration counts an attempt and sends nothing. *)
Lemma cached_query_counted_not_resent_witness :
  ∃ s',
    harvest_iteration client_403 sample_clock params_one_step
      (mkHarvest (mkWorld db_cached [] 0%nat) rng_zero 0 0) = Ok s' ∧
    attempts s' = 1 ∧ w_log (h_world s') = [] ∧ executed_steps s' = 0 ∧
    w_db (h_world s') = db_cached.
Proof.
  destruct (cached_query_counted_not_resent client_403 sample_clock params_one_step
              (mkHarvest (mkWorld db_cached [] 0%nat) rng_zero 0 0)
              "cfd fem solver" "cfd fem solver"
              (<["method" := "fem"]> (<["intent" := "solver"]> (<["domain" := "cfd"]> ∅)))
              (mkRecipe "DMI"
                 [mkRecipeKeyword 1 "domain" "cfd"; mkRecipeKeyword 2 "method" "fem";
                  mkRecipeKeyword 3 "intent" "solver"] None)
              (mkRng (fun _ => 0%Q) (fun _ => 0%nat) 4)
              (mkQueryRow 1 "cfd fem solver" (mkRecipe "DMI" [] None)
                          (Some "2026-01-01T00:00:00Z") (Some 200) (Some 0) None)
              "2026-01-01T00:00:00Z")
    as (s' & Hiter & Hattempts & Hlog & Hsteps & Hdb & _).
  - vm_compute. reflexivity.
  - reflexivity.
  - apply NoDup_singleton.
  - reflexivity.
  - reflexivity.
  - discriminate.
  - exists s'. repeat split; assumption.
Defined.
